(** * generate_changelog.py: a shallow embedding and its specification

    The development follows [src/actions/generate-changelog/generate_changelog.py].

    - A Python [str] is a [string]; the regular-expression engine works on
      its list of characters.  The alphabet is 7-bit ASCII: the character
      classes [\d], [\s], [\w], case folding and [str.upper] are the ones
      Python uses on code points below 128, and a character with the high
      bit set belongs to no class and has no case.
    - [re] patterns are values of [Re.regex], matched by a backtracking
      matcher with Python's priorities (greedy repetition, leftmost
      alternative first, leftmost start for [search]).
    - [subprocess.run] is an oracle from the call history and the argument
      vector to an exit status and a standard output; every call is
      recorded in a log, so that the absence of an external call is a
      statement about the log.  A command that cannot be started at all
      is outside the model, and so are the messages the program prints.
    - The changelog file is the text [read_text] returns, or [None] when
      the file does not exist.  A whole run works on a [World]: the
      process environment and the text files by name; the date comes
      from the clock as an argument.
    - [Linter] follows the check of one reference in
      [src/rokt-trunk-plugin/linters/validate-actions-versions/validate_actions_versions.py];
      the YAML document around it is not modelled.
    - Definitions come first (the program in [Changelog] and [Linter],
      the vocabulary of its specification in [Spec], concrete inputs in
      [Examples]); the properties follow. *)

From Stdlib Require Import Ascii ZArith Lia.
From stdpp Require Import gmap strings list.

(** ** Characters *)

Module Chars.

Definition code (c : ascii) : nat := nat_of_ascii c.

Definition in_range (lo hi : nat) (c : ascii) : bool :=
  (lo <=? code c) && (code c <=? hi).

Definition is_digit : ascii → bool := in_range 48 57.
Definition is_upper : ascii → bool := in_range 65 90.
Definition is_lower : ascii → bool := in_range 97 122.
Definition is_alpha (c : ascii) : bool := is_lower c || is_upper c.

(** [\w]: letters, digits and the underscore. *)
Definition is_word (c : ascii) : bool :=
  is_alpha c || is_digit c || (code c =? 95).

(** [\s] and [str.isspace]: TAB, LF, VT, FF, CR, FS, GS, RS, US, SPACE. *)
Definition is_space (c : ascii) : bool :=
  in_range 9 13 c || in_range 28 31 c || (code c =? 32).

Definition lower (c : ascii) : ascii :=
  if is_upper c then ascii_of_nat (code c + 32) else c.
Definition upper (c : ascii) : ascii :=
  if is_lower c then ascii_of_nat (code c - 32) else c.

Definition eqb (a b : ascii) : bool := Ascii.eqb a b.
(** Equality of two characters under [re.IGNORECASE]. *)
Definition eqb_ci (a b : ascii) : bool := Ascii.eqb (lower a) (lower b).

Definition newline : ascii := ascii_of_nat 10.

End Chars.

(** ** Regular expressions *)

Module Re.

(** The constructs the program's patterns use.  Every repetition in them
    is over a single-character set, hence [Star] and [Plus] take a set. *)
Inductive regex :=
| Eps
| Chr (p : ascii → bool)          (* one character of a set *)
| Bol                              (* ^ *)
| Eol                              (* $ *)
| WordB                            (* \b *)
| Seq (r1 r2 : regex)
| Alt (r1 r2 : regex)              (* r1|r2 *)
| Opt (r : regex)                  (* r? *)
| Star (p : ascii → bool)          (* [set]* *)
| Plus (p : ascii → bool)          (* [set]+ *)
| Group (name : string) (r : regex).

(** Captured groups, innermost and latest first. *)
Definition groups := list (string * list ascii).

(** A continuation receives the character before the current position
    ([None] at the start of the string), the rest of the input and the
    groups captured so far. *)
Definition cont (R : Type) := option ascii → list ascii → groups → option R.

Definition word_at (c : option ascii) : bool :=
  match c with Some c => Chars.is_word c | None => false end.

(** [$] without MULTILINE: at the end, or before a final newline. *)
Definition at_eol (s : list ascii) : bool :=
  match s with
  | [] => true
  | [c] => Chars.eqb c Chars.newline
  | _ => false
  end.

Definition orelse {R} (a : option R) (b : option R) : option R :=
  match a with Some x => Some x | None => b end.

Fixpoint star_loop {R} (p : ascii → bool) (prev : option ascii)
    (s : list ascii) (g : groups) (k : cont R) : option R :=
  match s with
  | c :: s' =>
      if p c then orelse (star_loop p (Some c) s' g k) (k prev s g)
      else k prev s g
  | [] => k prev s g
  end.

Fixpoint run {R} (r : regex) (prev : option ascii) (s : list ascii)
    (g : groups) (k : cont R) : option R :=
  match r with
  | Eps => k prev s g
  | Chr p =>
      match s with
      | c :: s' => if p c then k (Some c) s' g else None
      | [] => None
      end
  | Bol => match prev with None => k prev s g | Some _ => None end
  | Eol => if at_eol s then k prev s g else None
  | WordB =>
      if xorb (word_at prev) (word_at (head s)) then k prev s g else None
  | Seq r1 r2 => run r1 prev s g (λ prev' s' g', run r2 prev' s' g' k)
  | Alt r1 r2 => orelse (run r1 prev s g k) (run r2 prev s g k)
  | Opt r => orelse (run r prev s g k) (k prev s g)
  | Star p => star_loop p prev s g k
  | Plus p =>
      match s with
      | c :: s' => if p c then star_loop p (Some c) s' g k else None
      | [] => None
      end
  | Group n r =>
      run r prev s g
        (λ prev' s' g', k prev' s' ((n, take (length s - length s') s) :: g'))
  end.

(** A match object: the groups and the input left after the match. *)
Record matched := { m_groups : groups; m_rest : list ascii }.

Definition accept : cont matched :=
  λ _ s g, Some {| m_groups := g; m_rest := s |}.

Definition match_at (r : regex) (prev : option ascii) (s : list ascii)
    : option matched :=
  run r prev s [] accept.

(** [pattern.search]: the leftmost start position that matches. *)
Fixpoint search_from (r : regex) (prev : option ascii) (s : list ascii)
    : option matched :=
  match match_at r prev s with
  | Some m => Some m
  | None =>
      match s with
      | c :: s' => search_from r (Some c) s'
      | [] => None
      end
  end.

(** [pattern.sub] with the empty replacement: matched text is dropped,
    scanning resumes after it; an empty match drops nothing. *)
Fixpoint sub_from (fuel : nat) (r : regex) (prev : option ascii)
    (s : list ascii) : list ascii :=
  match fuel with
  | O => s
  | S fuel =>
      match match_at r prev s, s with
      | Some m, c :: s' =>
          if length (m_rest m) <? length s
          then sub_from fuel r (last (take (length s - length (m_rest m)) s))
                 (m_rest m)
          else c :: sub_from fuel r (Some c) s'
      | Some m, [] => []
      | None, c :: s' => c :: sub_from fuel r (Some c) s'
      | None, [] => []
      end
  end.

(** The character before the position reached after reading [w]. *)
Definition last_or (prev : option ascii) (w : list ascii) : option ascii :=
  match last w with Some c => Some c | None => prev end.

(** The declarative reading of a pattern: [den r prev w nxt g g'] says
    that [r] matches the word [w] when [prev] is the character before it
    and [nxt] is the input after it, turning the groups [g] into [g']. *)
Fixpoint den (r : regex) (prev : option ascii) (w nxt : list ascii)
    (g g' : groups) : Prop :=
  match r with
  | Eps => w = [] ∧ g' = g
  | Chr p => ∃ c, w = [c] ∧ p c = true ∧ g' = g
  | Bol => w = [] ∧ prev = None ∧ g' = g
  | Eol => w = [] ∧ at_eol nxt = true ∧ g' = g
  | WordB =>
      w = [] ∧ xorb (word_at prev) (word_at (head nxt)) = true ∧ g' = g
  | Seq r1 r2 =>
      ∃ w1 w2 g1, w = w1 ++ w2 ∧ den r1 prev w1 (w2 ++ nxt) g g1
                  ∧ den r2 (last_or prev w1) w2 nxt g1 g'
  | Alt r1 r2 => den r1 prev w nxt g g' ∨ den r2 prev w nxt g g'
  | Opt r => den r prev w nxt g g' ∨ (w = [] ∧ g' = g)
  | Star p => forallb p w = true ∧ g' = g
  | Plus p => w ≠ [] ∧ forallb p w = true ∧ g' = g
  | Group n r => ∃ g1, den r prev w nxt g g1 ∧ g' = (n, w) :: g1
  end.

Fixpoint assoc (n : string) (g : groups) : option (list ascii) :=
  match g with
  | [] => None
  | (n', w) :: g' => if decide (n = n') then Some w else assoc n g'
  end.

(** [m.group(name)]: [None] when the group took no part in the match. *)
Definition group (n : string) (m : matched) : option string :=
  String.string_of_list_ascii <$> assoc n (m_groups m).

(** Pattern builders. *)
Definition any_of (cs : string) (c : ascii) : bool :=
  existsb (Chars.eqb c) (String.list_ascii_of_string cs).
Definition none_of (cs : string) (c : ascii) : bool := negb (any_of cs c).
(** [.] without DOTALL. *)
Definition dot (c : ascii) : bool := negb (Chars.eqb c Chars.newline).

Fixpoint seqs (rs : list regex) : regex :=
  match rs with
  | [] => Eps
  | [r] => r
  | r :: rs => Seq r (seqs rs)
  end.

Definition chars (eq : ascii → ascii → bool) (cs : list ascii) : regex :=
  seqs ((λ c, Chr (eq c)) <$> cs).
(** A literal, as written in a pattern or produced by [re.escape]. *)
Definition lit (s : string) : regex :=
  chars Chars.eqb (String.list_ascii_of_string s).
(** A literal under [re.IGNORECASE]. *)
Definition lit_i (s : string) : regex :=
  chars Chars.eqb_ci (String.list_ascii_of_string s).

(** The three entry points the program uses, on Python strings. *)
Definition re_match (r : regex) (s : string) : option matched :=
  match_at r None (String.list_ascii_of_string s).
Definition re_search (r : regex) (s : string) : option matched :=
  search_from r None (String.list_ascii_of_string s).
Definition re_sub_empty (r : regex) (s : string) : string :=
  let l := String.list_ascii_of_string s in
  String.string_of_list_ascii (sub_from (S (length l)) r None l).

End Re.

(** ** Python string methods *)

Module Py.

Definition nl : string := String Chars.newline EmptyString.

Definition truthy (s : string) : bool :=
  match s with EmptyString => false | String _ _ => true end.
(** Truth value of a [str | None]. *)
Definition truthy_opt (o : option string) : bool :=
  match o with Some s => truthy s | None => false end.

Fixpoint lstrip_with (p : ascii → bool) (s : string) : string :=
  match s with
  | String c s' => if p c then lstrip_with p s' else s
  | EmptyString => s
  end.

Fixpoint rstrip_with (p : ascii → bool) (s : string) : string :=
  match s with
  | String c s' =>
      match rstrip_with p s' with
      | EmptyString => if p c then EmptyString else String c EmptyString
      | r => String c r
      end
  | EmptyString => EmptyString
  end.

(** [s.strip()] *)
Definition strip (s : string) : string :=
  rstrip_with Chars.is_space (lstrip_with Chars.is_space s).
(** [s.rstrip(chars)] and [s.lstrip(chars)] *)
Definition rstrip (chars : string) (s : string) : string :=
  rstrip_with (Re.any_of chars) s.

(** [s.lower()] *)
Fixpoint lower (s : string) : string :=
  match s with
  | String c s' => String (Chars.lower c) (lower s')
  | EmptyString => EmptyString
  end.

(** [s.split(sep)] for a one-character separator. *)
Fixpoint split (sep : ascii) (s : string) : list string :=
  match s with
  | EmptyString => [EmptyString]
  | String c s' =>
      if Chars.eqb c sep then EmptyString :: split sep s'
      else match split sep s' with
           | h :: t => String c h :: t
           | [] => [String c EmptyString]
           end
  end.

(** [s.split(sep, 1)] for a one-character separator. *)
Fixpoint split1 (sep : ascii) (s : string) : list string :=
  match s with
  | EmptyString => [EmptyString]
  | String c s' =>
      if Chars.eqb c sep then [EmptyString; s']
      else match split1 sep s' with
           | h :: t => String c h :: t
           | [] => [String c EmptyString]
           end
  end.

(** [sep.join(parts)] *)
Fixpoint join (sep : string) (parts : list string) : string :=
  match parts with
  | [] => EmptyString
  | [x] => x
  | x :: rest => x +:+ sep +:+ join sep rest
  end.

(** The line boundaries of [str.splitlines] below code point 128:
    LF, VT, FF, CR, FS, GS, RS; CR LF counts as one boundary. *)
Definition is_linebreak (c : ascii) : bool :=
  Chars.in_range 10 13 c || Chars.in_range 28 30 c.
Definition is_cr (c : ascii) : bool := Chars.code c =? 13.

Fixpoint splitlines_go (keepends : bool) (cur : string) (s : string)
    : list string :=
  match s with
  | EmptyString =>
      match cur with EmptyString => [] | _ => [String.rev cur] end
  | String c s' =>
      if is_linebreak c then
        match s' with
        | String d s'' =>
            if is_cr c && Chars.eqb d Chars.newline then
              String.rev (if keepends then String d (String c cur) else cur)
                :: splitlines_go keepends EmptyString s''
            else
              String.rev (if keepends then String c cur else cur)
                :: splitlines_go keepends EmptyString s'
        | EmptyString =>
            [String.rev (if keepends then String c cur else cur)]
        end
      else splitlines_go keepends (String c cur) s'
  end.

(** [s.splitlines()] and [s.splitlines(keepends=True)] *)
Definition splitlines (s : string) : list string :=
  splitlines_go false EmptyString s.
Definition splitlines_keepends (s : string) : list string :=
  splitlines_go true EmptyString s.

Inductive exn := ValueError.
Inductive result (A : Type) := Ok (a : A) | Raise (e : exn).
Global Arguments Ok {A} a.
Global Arguments Raise {A} e.






End Py.

(** ** The program *)

Module Changelog.
Import Re Py.

(** *** Constants *)

Definition CATEGORY_ORDER : list string :=
  [ "Breaking Changes"; "Removed"; "Deprecated"; "Added"; "Changed";
    "Fixed"; "Security" ].

Definition _TYPE_TO_CATEGORY : gmap string string :=
  list_to_map
    [ ("feat", "Added"); ("fix", "Fixed"); ("security", "Security");
      ("deprecate", "Deprecated"); ("revert", "Removed") ].

(** The conventional-commit pattern: [^], the group [type] of one or more
    of [a-zA-Z], an optional scope in parentheses (any characters but a
    closing parenthesis), the optional group [bang] holding [!], a colon,
    [\s] repeated, the group [desc] of [.] repeated, and [$]. *)
Definition _CC_REGEX : regex :=
  seqs [ Bol; Group "type" (Plus Chars.is_alpha);
         Opt (seqs [lit "("; Star (none_of ")"); lit ")"]);
         Opt (Group "bang" (lit "!")); lit ":"; Star Chars.is_space;
         Group "desc" (Star dot); Eol ].
(** An opening parenthesis and [#], group 1 of one or more [\d], a
    closing parenthesis, [$]. *)
Definition _PR_NUMBER_REGEX : regex :=
  seqs [ lit "(#"; Group "1" (Plus Chars.is_digit); lit ")"; Eol ].
Definition _SKIP_PATTERNS : regex :=
  Alt (seqs [Bol; lit "Merge pull request"])
 (Alt (seqs [Bol; lit "Merge branch"])
 (Alt (seqs [Bol; lit "Merge remote"])
 (Alt (seqs [Bol; lit "Prepare release"])
 (Alt (seqs [Bol; lit "Create "; Chr Chars.is_digit])
 (Alt (seqs [ Chr (any_of "Mm"); lit "erge"; Star dot; lit "to ";
              Group "1" (Alt (lit "main")
                          (Alt (lit "master") (lit "workstation"))) ])
      (seqs [ Chr (any_of "Mm"); lit "erge ";
              Group "2" (Alt (lit "main") (lit "master")); lit " to" ])))))).
(** [\bBREAKING\b]; IGNORECASE. *)
Definition _BREAKING_REGEX : regex := seqs [WordB; lit_i "BREAKING"; WordB].
(** [\s] repeated, then the reference marker as in [_PR_NUMBER_REGEX],
    without a group. *)
Definition _TRAILING_PR_REGEX : regex :=
  seqs [Star Chars.is_space; lit "(#"; Plus Chars.is_digit; lit ")"; Eol].

Definition _CHANGELOG_HEADER : string :=
  "<!-- markdownlint-disable MD024 -->" +:+ nl +:+ nl +:+
  "# Changelog" +:+ nl +:+ nl +:+
  "All notable changes to this project will be documented in this file."
    +:+ nl +:+ nl +:+
  "The format is based on [Keep a Changelog](https://keepachangelog.com/en/1.1.0/),"
    +:+ nl +:+
  "and this project adheres to [Semantic Versioning](https://semver.org/spec/v2.0.0.html)."
    +:+ nl +:+ nl +:+
  "## [Unreleased]" +:+ nl.

(** [^##], one or more [\s], the literal [[Unreleased]]; IGNORECASE. *)
Definition _UNRELEASED_HEADING_REGEX : regex :=
  seqs [Bol; lit_i "##"; Plus Chars.is_space; lit_i "[Unreleased]"].
(** [^##], one or more [\s], an opening bracket, one or more [.], a
    closing bracket. *)
Definition _VERSION_HEADING_REGEX : regex :=
  seqs [Bol; lit "##"; Plus Chars.is_space; lit "["; Plus dot; lit "]"].
(** [^], the literal [[unreleased]:]; IGNORECASE. *)
Definition _UNRELEASED_LINK_REGEX : regex :=
  seqs [Bol; lit_i "[unreleased]:"].

(** Truth value of a match result. *)
Definition matches_opt {A} (m : option A) : bool :=
  match m with Some _ => true | None => false end.
Definition matches (m : option matched) : bool := matches_opt m.

(** *** Data classes *)

Record Config := {
  version : string;
  repo_url : string;
  tag_prefix : string;
  changelog_path : string;
  exclude_types : gset string;
  today : string;
}.

Record Entry := { category : string; text : string }.

(** *** External commands *)

Definition argv := list string.
Record CompletedProcess := { returncode : Z; stdout : string }.
(** What [subprocess.run] answers to a command, given the commands run
    before it. *)
Definition subprocess := list argv → argv → CompletedProcess.

(** Computations that run commands and may raise: the log of the
    commands run so far is threaded through. *)
Definition IO (A : Type) : Type := list argv → result A * list argv.
Definition ret {A} (a : A) : IO A := λ log, (Ok a, log).
Definition raise {A} (e : exn) : IO A := λ log, (Raise e, log).
Definition bind {A B} (m : IO A) (f : A → IO B) : IO B :=
  λ log,
    match m log with
    | (Ok a, log') => f a log'
    | (Raise e, log') => (Raise e, log')
    end.

Global Instance IO_ret : MRet IO := @ret.
Global Instance IO_bind : MBind IO := λ A B f m, bind m f.


(** *** Helpers *)

Definition _map_category (cc_type : string) (breaking : bool) : string :=
  if breaking then "Breaking Changes"
  else default "Changed" (_TYPE_TO_CATEGORY !! cc_type).

Definition _capitalise_first (text : string) : string :=
  match text with
  | String c rest => String (Chars.upper c) rest
  | EmptyString => text
  end.

Definition _parse_commit (title : string) : string * bool * string :=
  let cc_type := EmptyString in
  let breaking := false in
  let description := title in
  let '(cc_type, breaking, description) :=
    match re_match _CC_REGEX description with
    | Some cc_match =>
        ( lower (default EmptyString (group "type" cc_match)),
          bool_decide (group "bang" cc_match = Some "!"),
          default EmptyString (group "desc" cc_match) )
    | None => (cc_type, breaking, description)
    end in
  let breaking :=
    if matches (re_search _BREAKING_REGEX description) then true
    else breaking in
  (cc_type, breaking, description).

Definition build_section (entries : list Entry) : string :=
  let lines :=
    foldl
      (λ (lines : list string) (cat : string),
         let cat_entries :=
           text <$> filter (λ e, category e = cat) entries in
         match cat_entries with
         | [] => lines
         | _ => (lines ++ ["### " +:+ cat; EmptyString]) ++ cat_entries
                  ++ [EmptyString]
         end)
      [] CATEGORY_ORDER in
  join nl lines.

(** *** Changelog file manipulation *)

Record scan := { output : list string; in_unreleased : bool; inserted : bool }.

Definition insert_line (new_section : string) (st : scan) (line : string)
    : scan :=
  let stripped := rstrip nl line in
  if negb (in_unreleased st)
     && matches (re_match _UNRELEASED_HEADING_REGEX stripped)
  then {| output := output st ++ [line]; in_unreleased := true;
          inserted := inserted st |}
  else if in_unreleased st && negb (inserted st) then
    if matches (re_match _VERSION_HEADING_REGEX stripped)
    then {| output := output st ++ [nl; new_section +:+ nl; nl; line];
            in_unreleased := in_unreleased st; inserted := true |}
    else {| output := output st ++ [line];
            in_unreleased := in_unreleased st; inserted := inserted st |}
  else {| output := output st ++ [line];
          in_unreleased := in_unreleased st; inserted := inserted st |}.

Definition _insert_version_section (lines : list string)
    (new_section : string) : list string :=
  let st :=
    foldl (insert_line new_section)
      {| output := []; in_unreleased := false; inserted := false |} lines in
  if in_unreleased st && negb (inserted st)
  then output st ++ [nl; new_section +:+ nl]
  else output st.

Definition relink_line (cfg : Config) (last_tag : option string)
    (st : list string * bool) (line : string) : list string * bool :=
  let '(output, updated) := st in
  if negb updated && matches (re_match _UNRELEASED_LINK_REGEX line) then
    let output :=
      output
      ++ [ "[unreleased]: " +:+ repo_url cfg +:+ "/compare/" +:+ version cfg
             +:+ "...HEAD" +:+ nl ] in
    let output :=
      if truthy_opt last_tag then
        output
        ++ [ "[" +:+ version cfg +:+ "]: " +:+ repo_url cfg +:+ "/compare/"
               +:+ default EmptyString last_tag +:+ "..." +:+ version cfg
               +:+ nl ]
      else
        output
        ++ [ "[" +:+ version cfg +:+ "]: " +:+ repo_url cfg
               +:+ "/releases/tag/" +:+ version cfg +:+ nl ] in
    (output, true)
  else (output ++ [line], updated).

Definition _update_comparison_links (lines : list string) (cfg : Config)
    (last_tag : option string) : list string :=
  (foldl (relink_line cfg last_tag) ([], false) lines).1.

(** The file is its text, or [None] when it does not exist. *)
Definition _ensure_changelog_exists (file : option string) : string :=
  match file with
  | Some content => content
  | None => _CHANGELOG_HEADER +:+ nl
  end.

Definition update_changelog (cfg : Config) (section_body : string)
    (last_tag : option string) (file : option string) : string :=
  let content := _ensure_changelog_exists file in
  let new_section :=
    "## [" +:+ version cfg +:+ "] - " +:+ today cfg +:+ nl +:+ nl
      +:+ section_body in
  let original := splitlines_keepends content in
  let result := _insert_version_section original new_section in
  let result := _update_comparison_links result cfg last_tag in
  join EmptyString result.

(** The set comprehension [main] builds from [INPUT_EXCLUDE_TYPES]. *)
Definition main_exclude_types (input : string) : gset string :=
  list_to_set
    (strip <$> filter (λ t, truthy (strip t) = true) (split "," input)).

(** *** GitHub Actions output *)

(** The process environment, and the text files the program reads and
    writes, each under the name the program opens it by.  Two names of
    one file, directories and failures of the file system are not
    modelled. *)
Record World := {
  environ : gmap string string;
  files : gmap string string;
}.





(** The configuration [main] builds, with the date [Config] takes from
    the clock. *)
Definition main_config (today : string) (w : World) : Config :=
  let repo := default EmptyString (environ w !! "GITHUB_REPOSITORY") in
  {| version := default EmptyString (environ w !! "INPUT_VERSION");
     repo_url :=
       rstrip "/"
         (if truthy_opt (environ w !! "INPUT_REPO_URL")
          then default EmptyString (environ w !! "INPUT_REPO_URL")
          else "https://github.com/" +:+ repo);
     tag_prefix := default EmptyString (environ w !! "INPUT_TAG_PREFIX");
     changelog_path :=
       default "CHANGELOG.md" (environ w !! "INPUT_CHANGELOG_PATH");
     exclude_types :=
       main_exclude_types
         (default EmptyString (environ w !! "INPUT_EXCLUDE_TYPES"));
     today := today |}.

(** *** Core logic, over the external commands *)

Section with_subprocess.
Variable run_process : subprocess.

Definition _run_cmd (cmd : argv) : IO string :=
  λ log,
    let result := run_process log cmd in
    ( Ok (if negb (returncode result =? 0)%Z then EmptyString
          else strip (stdout result)),
      log ++ [cmd] ).



Definition _fetch_pr_title (pr_number : string) : IO (option string) :=
  title ← _run_cmd
             ["gh"; "pr"; "view"; pr_number; "--json"; "title"; "--jq";
              ".title"];
  ret (if truthy title then Some title else None).

Definition _entry_from_commit (message : string) (cfg : Config)
    : IO (option Entry) :=
  if matches (re_search _SKIP_PATTERNS message) then ret None
  else
    let pr_match := re_search _PR_NUMBER_REGEX message in
    let pr_number := pr_match ≫= group "1" in
    title ←
      (match pr_number with
       | Some n =>
           if truthy n then
             pr_title ← _fetch_pr_title n;
             ret (if truthy_opt pr_title
                  then default message pr_title else message)
           else ret message
       | None => ret message
       end);
    let '(cc_type, breaking, description) := _parse_commit title in
    if negb breaking && truthy cc_type
       && bool_decide (cc_type ∈ exclude_types cfg)
    then ret None
    else
      let category := _map_category cc_type breaking in
      let description := _capitalise_first description in
      let description := re_sub_empty _TRAILING_PR_REGEX description in
      let text :=
        if truthy_opt pr_number then
          "- " +:+ description +:+ " ([#" +:+ default EmptyString pr_number
            +:+ "](" +:+ repo_url cfg +:+ "/pull/"
            +:+ default EmptyString pr_number +:+ "))"
        else "- " +:+ description in
      ret (Some {| category := category; text := text |}).

Fixpoint collect_lines (cfg : Config) (lines : list string)
    (entries : list Entry) : IO (list Entry) :=
  match lines with
  | [] => ret entries
  | line :: lines' =>
      if negb (truthy (strip line)) then collect_lines cfg lines' entries
      else
        match split1 " " line with
        | [_sha; message] =>
            entry ← _entry_from_commit message cfg;
            collect_lines cfg lines'
              (match entry with
               | Some e => entries ++ [e]
               | None => entries
               end)
        | _ => raise ValueError
        end
  end.

Definition collect_entries (last_tag : option string) (cfg : Config)
    : IO (list Entry) :=
  let log_range :=
    if truthy_opt last_tag
    then default EmptyString last_tag +:+ "..HEAD" else "HEAD" in
  log_output ←
    _run_cmd ["git"; "log"; "--first-parent"; "--pretty=format:%H %s";
              log_range];
  if negb (truthy log_output) then ret []
  else collect_lines cfg (splitlines log_output) [].

(** *** Entry point *)


End with_subprocess.

End Changelog.

(** ** The linter of action versions *)

(** [validate_actions_versions.py]: the check of one [uses] reference. *)
Module Linter.
Import Re Py.

(** [[0-9a-f]] *)
Definition is_hex_lower (c : ascii) : bool :=
  Chars.is_digit c || Chars.in_range 97 102 c.

(** [r{n}] *)
Definition times (n : nat) (r : regex) : regex := seqs (replicate n r).

(** [^[0-9a-f]{40}$] *)
Definition sha_pattern : regex :=
  seqs [Bol; times 40 (Chr is_hex_lower); Eol].

(** [s.startswith(p)] *)
Fixpoint startswith (p s : string) : bool :=
  match p, s with
  | EmptyString, _ => true
  | String a p', String b s' => Chars.eqb a b && startswith p' s'
  | String _ _, EmptyString => false
  end.

(** [s.rsplit(sep, 1)] for a one-character separator. *)
Fixpoint rsplit1 (sep : ascii) (s : string) : list string :=
  match s with
  | EmptyString => [EmptyString]
  | String c s' =>
      match rsplit1 sep s' with
      | [h; t] => [String c h; t]
      | _ => if Chars.eqb c sep then [EmptyString; s'] else [String c s']
      end
  end.

Definition validate_action_version (uses : string) : result bool :=
  if startswith "." uses then Ok true
  else if startswith "ROKT/rokt-workflows/" uses then Ok true
  else if negb (bool_decide ("@"%char ∈ String.list_ascii_of_string uses))
  then Ok false
  else
    match rsplit1 "@" uses with
    | [_; version] => Ok (bool_decide (is_Some (re_match sha_pattern version)))
    | _ => Raise ValueError
    end.

End Linter.

(** ** The specification's vocabulary *)

Module Spec.
Import Re Py Changelog.

Abbreviation chars_of := String.list_ascii_of_string.
Abbreviation string_of := String.string_of_list_ascii.

(** [starts_with eq word s]: [s] begins with [word], compared character
    by character with [eq]; the answer is what follows the word. *)
Fixpoint starts_with (eq : ascii → ascii → bool) (word s : list ascii)
    : option (list ascii) :=
  match word, s with
  | [], _ => Some s
  | c :: word', x :: s' => if eq c x then starts_with eq word' s' else None
  | _ :: _, [] => None
  end.

(** A line beginning with [word], in any letter case. *)
Definition begins_with_ci (word line : string) : bool :=
  matches_opt (starts_with Chars.eqb_ci (chars_of word) (chars_of line)).

(** The two kinds of heading line of the changelog. *)
Definition is_unreleased_heading (line : string) : bool :=
  matches (re_match _UNRELEASED_HEADING_REGEX (rstrip nl line)).
Definition is_version_heading (line : string) : bool :=
  matches (re_match _VERSION_HEADING_REGEX (rstrip nl line)).

(** The insertion pass run from a given state. *)
Definition scan_from (ns : string) (st : scan) (lines : list string) : scan :=
  foldl (insert_line ns) st lines.







(** The fixed table from types to categories, with its default. *)
Definition type_category (cc_type : string) : string :=
  if decide (cc_type = "feat") then "Added"
  else if decide (cc_type = "fix") then "Fixed"
  else if decide (cc_type = "security") then "Security"
  else if decide (cc_type = "deprecate") then "Deprecated"
  else if decide (cc_type = "revert") then "Removed"
  else "Changed".


(** The reference number a commit message ends with, if any. *)
Definition pr_number_of (message : string) : option string :=
  re_search _PR_NUMBER_REGEX message ≫= group "1".




(** The command of the title lookup. *)
Definition lookup_cmd (pr_number : string) : argv :=
  ["gh"; "pr"; "view"; pr_number; "--json"; "title"; "--jq"; ".title"].

(** The title a lookup yields: the stripped output of a successful
command when it is not empty. *)
Definition looked_up (result : CompletedProcess) : option string :=
  if (returncode result =? 0)%Z && truthy (strip (stdout result))
  then Some (strip (stdout result)) else None.

(** The title a run classifies for a message that is not skipped, and the
lookups it makes. *)
Definition title_used (run_process : subprocess) (log : list argv)
    (message : string) : string :=
  match pr_number_of message with
  | Some n =>
      if truthy n
      then default message (looked_up (run_process log (lookup_cmd n)))
      else message
  | None => message
  end.

Definition lookups (message : string) : list argv :=
  match pr_number_of message with
  | Some n => if truthy n then [lookup_cmd n] else []
  | None => []
  end.

(** The entry made from a title and a reference number: the part of
[_entry_from_commit] after the title is known. *)
Definition entry_of (cfg : Config) (pr_number : option string)
    (title : string) : option Entry :=
  let '(cc_type, breaking, description) := _parse_commit title in
  if negb breaking && truthy cc_type
     && bool_decide (cc_type ∈ exclude_types cfg)
  then None
  else
    let category := _map_category cc_type breaking in
    let description := _capitalise_first description in
    let description := re_sub_empty _TRAILING_PR_REGEX description in
    let text :=
      if truthy_opt pr_number then
        "- " +:+ description +:+ " ([#" +:+ default EmptyString pr_number
          +:+ "](" +:+ repo_url cfg +:+ "/pull/"
          +:+ default EmptyString pr_number +:+ "))"
      else "- " +:+ description in
    Some {| category := category; text := text |}.

(** The loop of [collect_entries] when no title lookup yields a title:
every message is classified as it is.  The answer is the entries and the
commands run. *)
Fixpoint collect_raw (cfg : Config) (lines : list string)
    (entries : list Entry) : result (list Entry) * list argv :=
  match lines with
  | [] => (Ok entries, [])
  | line :: lines' =>
      if negb (truthy (strip line)) then collect_raw cfg lines' entries
      else
        match split1 " " line with
        | [_sha; message] =>
            if matches (re_search _SKIP_PATTERNS message)
            then collect_raw cfg lines' entries
            else
              let rest :=
                collect_raw cfg lines'
                  (match entry_of cfg (pr_number_of message) message with
                   | Some e => entries ++ [e]
                   | None => entries
                   end) in
              (rest.1, lookups message ++ rest.2)
        | _ => (Raise ValueError, [])
        end
  end.













(** The section builder, in the specification's words: the lines of one
category are its heading, a blank line, the entry lines in input order
and a blank line, or nothing when no entry has the category. *)
Definition entry_lines (entries : list Entry) (cat : string) : list string :=
  text <$> filter (λ e, category e = cat) entries.

Definition category_block (entries : list Entry) (cat : string)
    : list string :=
  if bool_decide (Exists (λ e, category e = cat) entries)
  then ["### " +:+ cat; EmptyString] ++ entry_lines entries cat
         ++ [EmptyString]
  else [].


(** The command [collect_entries] runs, and the lines it reads from it. *)
Definition log_cmd (last_tag : option string) : argv :=
  [ "git"; "log"; "--first-parent"; "--pretty=format:%H %s";
    match last_tag with
    | Some (String c tag') => String c tag' +:+ "..HEAD"
    | _ => "HEAD"
    end ].



(** The references the linter accepts: a local action, an action of
ROKT/rokt-workflows, or a reference pinned to a commit, which ends with
[@], forty lower-case hexadecimal digits and at most a final newline. *)
Definition exempt (uses : string) : Prop :=
  (∃ rest, uses = "." +:+ rest)
  ∨ (∃ rest, uses = "ROKT/rokt-workflows/" +:+ rest).

Definition is_sha (v : string) : Prop :=
  String.length v = 40
  ∧ forallb Linter.is_hex_lower (chars_of v) = true.

Definition pinned (uses : string) : Prop :=
  ∃ action sha tail,
    uses = action +:+ "@" +:+ sha +:+ tail
    ∧ is_sha sha ∧ (tail = EmptyString ∨ tail = nl).

End Spec.

(** ** Concrete inputs *)

Module Examples.
Import Py Changelog.

Definition cfg : Config :=
  {| version := "v1.3.0"; repo_url := "URL"; tag_prefix := "v";
     changelog_path := "CHANGELOG.md"; exclude_types := ∅;
     today := "2024-05-01" |}.





(** The history of the end-to-end scenario, as [git log] prints it. *)
Definition git_log : string :=
  "1f0c feat: add retry logic (#42)" +:+ nl
    +:+ "2e1d fix!: correct off-by-one (#43)" +:+ nl
    +:+ "3d2e Merge pull request #44 from x/y" +:+ nl
    +:+ "4c3f chore: bump deps (#45)".

Definition git_tags : string :=
  "v1.2.3" +:+ nl +:+ "v1.10.0" +:+ nl +:+ "v2.0.0-beta" +:+ nl
    +:+ "v1.9.9" +:+ nl.

(** A machine where [git] answers with the scenario and every title
lookup fails. *)
Definition offline : subprocess :=
  λ _ cmd,
    match cmd with
    | "git" :: "tag" :: _ => {| returncode := 0; stdout := git_tags |}
    | "git" :: "log" :: _ => {| returncode := 0; stdout := git_log |}
    | _ => {| returncode := 1; stdout := EmptyString |}
    end.




(** A configuration whose excluded type is written with a capital. *)
Definition cfg_capital : Config :=
  {| version := "v1.3.0"; repo_url := "URL"; tag_prefix := "v";
     changelog_path := "CHANGELOG.md";
     exclude_types := main_exclude_types "Chore";
     today := "2024-05-01" |}.

End Examples.

(** * Properties *)

(** ** The matcher against the declarative reading *)

Module ReFacts.
Import Re.

Lemma last_or_nil prev : last_or prev [] = prev.
Proof. reflexivity. Qed.


Lemma last_or_app prev w1 w2 :
  last_or (last_or prev w1) w2 = last_or prev (w1 ++ w2).
Proof.
  unfold last_or. rewrite last_app.
  destruct (last w2); [done|]. by destruct (last w1).
Qed.

Lemma last_or_cons prev c w : last_or (Some c) w = last_or prev (c :: w).
Proof. exact (last_or_app prev [c] w). Qed.

Lemma orelse_Some {R} (a b : option R) x :
  orelse a b = Some x → a = Some x ∨ (a = None ∧ b = Some x).
Proof.
  destruct a; simpl; [intros [= ->]; by left|intros ->; by right].
Qed.

Lemma orelse_is_Some {R} (a b : option R) :
  is_Some a ∨ is_Some b → is_Some (orelse a b).
Proof. destruct a; simpl; [eauto|]. by intros [[? [=]]|?]. Qed.

Lemma star_loop_sound {R} p (k : cont R) s prev g x :
  star_loop p prev s g k = Some x →
  ∃ w nxt, s = w ++ nxt ∧ forallb p w = true
           ∧ k (last_or prev w) nxt g = Some x.
Proof.
  revert prev. induction s as [|c s IH]; intros prev; simpl.
  - intros Hk. by exists [], [].
  - destruct (p c) eqn:Hp.
    + intros [H|[_ H]]%orelse_Some.
      * destruct (IH _ H) as (w & nxt & -> & Hw & Hk).
        exists (c :: w), nxt. simpl. rewrite Hp, Hw.
        by rewrite <-(last_or_cons prev).
      * by exists [], (c :: s).
    + intros Hk. by exists [], (c :: s).
Qed.

Lemma star_loop_complete {R} p (k : cont R) w nxt prev g :
  forallb p w = true →
  is_Some (k (last_or prev w) nxt g) →
  is_Some (star_loop p prev (w ++ nxt) g k).
Proof.
  revert prev. induction w as [|c w IH]; intros prev Hw Hk; simpl in *.
  - destruct nxt as [|c s]; simpl; [done|].
    destruct (p c); [|done]. apply orelse_is_Some. by right.
  - apply andb_true_iff in Hw as [-> Hw].
    apply orelse_is_Some. left. apply IH; [done|].
    by rewrite (last_or_cons prev).
Qed.

Lemma run_sound {R} r : ∀ (k : cont R) prev s g x,
  run r prev s g k = Some x →
  ∃ w nxt g', s = w ++ nxt ∧ den r prev w nxt g g'
              ∧ k (last_or prev w) nxt g' = Some x.
Proof.
  induction r as [|p| | | |r1 IH1 r2 IH2|r1 IH1 r2 IH2|r IH|p|p|n r IH];
    intros k prev s g x; simpl.
  - intros Hk. by exists [], s, g.
  - destruct s as [|c s]; [done|]. destruct (p c) eqn:Hp; [|done].
    intros Hk. exists [c], s, g. naive_solver.
  - destruct prev; [done|]. intros Hk. by exists [], s, g.
  - destruct (at_eol s) eqn:He; [|done]. intros Hk. by exists [], s, g.
  - destruct (xorb _ _) eqn:He; [|done]. intros Hk. by exists [], s, g.
  - intros H. destruct (IH1 _ _ _ _ _ H) as (w1 & n1 & g1 & -> & D1 & H1).
    destruct (IH2 _ _ _ _ _ H1) as (w2 & n2 & g2 & -> & D2 & H2).
    exists (w1 ++ w2), n2, g2. rewrite <-last_or_app.
    split; [by rewrite app_assoc|]. split; [|done].
    by exists w1, w2, g1.
  - intros [H|[_ H]]%orelse_Some.
    + destruct (IH1 _ _ _ _ _ H) as (w & nxt & g' & ? & ? & ?).
      exists w, nxt, g'. auto.
    + destruct (IH2 _ _ _ _ _ H) as (w & nxt & g' & ? & ? & ?).
      exists w, nxt, g'. auto.
  - intros [H|[_ H]]%orelse_Some.
    + destruct (IH _ _ _ _ _ H) as (w & nxt & g' & ? & ? & ?).
      exists w, nxt, g'. auto.
    + exists [], s, g. auto.
  - intros H. destruct (star_loop_sound _ _ _ _ _ _ H) as (w & nxt & ? & ? & ?).
    by exists w, nxt, g.
  - destruct s as [|c s]; [done|]. destruct (p c) eqn:Hp; [|done].
    intros H. destruct (star_loop_sound _ _ _ _ _ _ H) as (w & nxt & -> & Hw & Hk).
    exists (c :: w), nxt, g. simpl. rewrite Hp, Hw, <-(last_or_cons prev).
    done.
  - intros H. destruct (IH _ _ _ _ _ H) as (w & nxt & g' & -> & D & Hk).
    rewrite length_app, Nat.add_sub, take_app_length in Hk.
    exists w, nxt, ((n, w) :: g'). split; [done|]. split; [|done].
    by exists g'.
Qed.

Lemma run_complete {R} r : ∀ (k : cont R) prev w nxt g g',
  den r prev w nxt g g' →
  is_Some (k (last_or prev w) nxt g') →
  is_Some (run r prev (w ++ nxt) g k).
Proof.
  induction r as [|p| | | |r1 IH1 r2 IH2|r1 IH1 r2 IH2|r IH|p|p|n r IH];
    intros k prev w nxt g g'; simpl.
  - by intros [-> ->].
  - intros (c & -> & Hp & ->). simpl. by rewrite Hp.
  - by intros (-> & -> & ->).
  - intros (-> & He & ->). simpl. by rewrite He.
  - intros (-> & He & ->). simpl. by rewrite He.
  - intros (w1 & w2 & g1 & -> & D1 & D2) Hk.
    rewrite <-app_assoc. eapply IH1; [done|].
    eapply IH2; [done|]. by rewrite last_or_app.
  - intros [D|D] Hk; apply orelse_is_Some; [left|right]; eauto.
  - intros [D|[-> ->]] Hk; apply orelse_is_Some; [left|right]; eauto.
  - intros [Hw ->] Hk. by apply star_loop_complete.
  - intros (Hne & Hw & ->) Hk. destruct w as [|c w]; [done|]. simpl in *.
    apply andb_true_iff in Hw as [-> Hw].
    apply star_loop_complete; [done|]. by rewrite (last_or_cons prev).
  - intros (g1 & D & ->) Hk. eapply IH; [done|].
    by rewrite length_app, Nat.add_sub, take_app_length.
Qed.

(** The matcher on sequences and literals, as rewriting rules. *)

Lemma run_seqs_cons {R} r rs (k : cont R) prev s g :
  run (seqs (r :: rs)) prev s g k
  = run r prev s g (λ prev' s' g', run (seqs rs) prev' s' g' k).
Proof. by destruct rs. Qed.

Lemma run_chars {R} eq cs : ∀ (k : cont R) prev s g,
  run (chars eq cs) prev s g k
  = match Spec.starts_with eq cs s with
    | Some rest => k (last_or prev (take (length cs) s)) rest g
    | None => None
    end.
Proof.
  unfold chars. induction cs as [|c cs IH]; intros k prev s g.
  - done.
  - rewrite fmap_cons, run_seqs_cons. destruct s as [|x s]; [done|].
    simpl. destruct (eq c x); [|done]. rewrite IH.
    destruct (Spec.starts_with eq cs s); [|done].
    by rewrite (last_or_cons prev).
Qed.

Lemma match_at_sound r prev s m :
  match_at r prev s = Some m →
  ∃ w, s = w ++ m_rest m ∧ den r prev w (m_rest m) [] (m_groups m).
Proof.
  intros H. apply run_sound in H as (w & nxt & g' & -> & D & [= <-]).
  by exists w.
Qed.

Lemma match_at_complete r prev w nxt g' :
  den r prev w nxt [] g' → is_Some (match_at r prev (w ++ nxt)).
Proof. intros D. by eapply run_complete. Qed.


Lemma search_from_complete r pre : ∀ prev w nxt g',
  den r (last_or prev pre) w nxt [] g' →
  is_Some (search_from r prev (pre ++ w ++ nxt)).
Proof.
  induction pre as [|c pre IH]; intros prev w nxt g' D.
  - apply match_at_complete in D as [m Hm]. cbn [app last_or last] in *.
    destruct (w ++ nxt); simpl; by rewrite Hm.
  - simpl. destruct (match_at r prev _); [done|].
    eapply IH. by rewrite (last_or_cons prev).
Qed.


End ReFacts.

(** ** The two passes over the changelog lines *)

Module ScanFacts.
Import Re Py Changelog Spec ReFacts.

Lemma is_unreleased_link_begins line :
  matches (re_match _UNRELEASED_LINK_REGEX line)
  = begins_with_ci "[unreleased]:" line.
Proof.
  unfold re_match, match_at, _UNRELEASED_LINK_REGEX, begins_with_ci, lit_i.
  rewrite run_seqs_cons. cbn [run]. rewrite run_seqs_cons, run_chars.
  by destruct (starts_with _ _ _).
Qed.

Lemma scan_before ns st lines :
  in_unreleased st = false →
  Forall (λ l, is_unreleased_heading l = false) lines →
  scan_from ns st lines
  = {| output := output st ++ lines; in_unreleased := false;
       inserted := inserted st |}.
Proof.
  revert st. induction lines as [|l lines IH]; intros [out inu ins]; simpl.
  - intros ->. by rewrite app_nil_r.
  - intros -> [Hl Hls]%Forall_cons. unfold scan_from in *. simpl.
    unfold insert_line at 2. simpl. unfold is_unreleased_heading in Hl.
    rewrite Hl. simpl. rewrite IH; [|done..]. simpl.
    by rewrite <-app_assoc.
Qed.

Lemma scan_waiting ns st lines :
  in_unreleased st = true → inserted st = false →
  Forall (λ l, is_version_heading l = false) lines →
  scan_from ns st lines
  = {| output := output st ++ lines; in_unreleased := true;
       inserted := false |}.
Proof.
  revert st. induction lines as [|l lines IH]; intros [out inu ins]; simpl.
  - intros -> ->. by rewrite app_nil_r.
  - intros -> -> [Hl Hls]%Forall_cons. unfold scan_from in *. simpl.
    unfold insert_line at 2. simpl. unfold is_version_heading in Hl.
    rewrite Hl. rewrite IH; [|done..]. simpl.
    by rewrite <-app_assoc.
Qed.

Lemma scan_done ns st lines :
  in_unreleased st = true → inserted st = true →
  scan_from ns st lines
  = {| output := output st ++ lines; in_unreleased := true;
       inserted := true |}.
Proof.
  revert st. induction lines as [|l lines IH]; intros [out inu ins]; simpl.
  - intros -> ->. by rewrite app_nil_r.
  - intros -> ->. unfold scan_from in *. simpl.
    unfold insert_line at 2. simpl. rewrite IH; [|done..]. simpl.
    by rewrite <-app_assoc.
Qed.

Lemma scan_app ns st l1 l2 :
  scan_from ns st (l1 ++ l2) = scan_from ns (scan_from ns st l1) l2.
Proof. apply foldl_app. Qed.

(** Splitting a list at the first element that satisfies a test. *)
Lemma first_split {A} (p : A → bool) (l : list A) :
  Forall (λ x, p x = false) l
  ∨ ∃ pre x post, l = pre ++ x :: post
                  ∧ Forall (λ x, p x = false) pre ∧ p x = true.
Proof.
  induction l as [|a l IH]; [by left|].
  destruct (p a) eqn:Ha.
  - right. by exists [], a, l.
  - destruct IH as [IH|(pre & x & post & -> & Hpre & Hx)].
    + left. by constructor.
    + right. exists (a :: pre), x, post. split; [done|].
      split; [by constructor|done].
Qed.

Lemma scan_cons ns st l lines :
  scan_from ns st (l :: lines) = scan_from ns (insert_line ns st l) lines.
Proof. reflexivity. Qed.

Lemma insert_line_unreleased ns out ins u :
  is_unreleased_heading u = true →
  insert_line ns {| output := out; in_unreleased := false; inserted := ins |} u
  = {| output := out ++ [u]; in_unreleased := true; inserted := ins |}.
Proof.
  unfold is_unreleased_heading, insert_line. simpl. by intros ->.
Qed.

Lemma insert_line_version ns out h :
  is_version_heading h = true →
  insert_line ns {| output := out; in_unreleased := true; inserted := false |} h
  = {| output := out ++ [nl; ns +:+ nl; nl; h]; in_unreleased := true;
       inserted := true |}.
Proof.
  unfold is_version_heading, insert_line. simpl. by intros ->.
Qed.

Lemma insert_after_heading ns pre u rest :
  Forall (λ l, is_unreleased_heading l = false) pre →
  is_unreleased_heading u = true →
  scan_from ns {| output := []; in_unreleased := false; inserted := false |}
    (pre ++ u :: rest)
  = scan_from ns {| output := pre ++ [u]; in_unreleased := true;
                    inserted := false |} rest.
Proof.
  intros Hpre Hu. rewrite scan_app, (scan_before ns _ pre); [|done..].
  by rewrite scan_cons, insert_line_unreleased.
Qed.

Lemma insert_version_section_scan lines ns :
  _insert_version_section lines ns
  = let st := scan_from ns {| output := []; in_unreleased := false;
                              inserted := false |} lines in
    if in_unreleased st && negb (inserted st)
    then output st ++ [nl; ns +:+ nl] else output st.
Proof. reflexivity. Qed.

Lemma insert_with_next_heading ns pre u mid h post :
  Forall (λ l, is_unreleased_heading l = false) pre →
  is_unreleased_heading u = true →
  Forall (λ l, is_version_heading l = false) mid →
  is_version_heading h = true →
  _insert_version_section (pre ++ u :: mid ++ h :: post) ns
  = pre ++ u :: mid ++ [nl; ns +:+ nl; nl; h] ++ post.
Proof.
  intros Hpre Hu Hmid Hh. rewrite insert_version_section_scan.
  rewrite insert_after_heading; [|done..].
  rewrite scan_app, (scan_waiting ns _ mid); [|done..].
  rewrite scan_cons, insert_line_version; [|done].
  rewrite scan_done; [|done..]. simpl.
  by rewrite <-!app_assoc.
Qed.

Lemma insert_without_next_heading ns pre u rest :
  Forall (λ l, is_unreleased_heading l = false) pre →
  is_unreleased_heading u = true →
  Forall (λ l, is_version_heading l = false) rest →
  _insert_version_section (pre ++ u :: rest) ns
  = pre ++ u :: rest ++ [nl; ns +:+ nl].
Proof.
  intros Hpre Hu Hrest. rewrite insert_version_section_scan.
  rewrite insert_after_heading; [|done..].
  rewrite scan_waiting; [|done..]. simpl.
  by rewrite <-!app_assoc.
Qed.

Lemma insert_without_unreleased ns lines :
  Forall (λ l, is_unreleased_heading l = false) lines →
  _insert_version_section lines ns = lines.
Proof.
  intros H. rewrite insert_version_section_scan.
  by rewrite scan_before.
Qed.

(** The relinking pass. *)


Lemma relink_before cfg last_tag out lines :
  Forall (λ l, begins_with_ci "[unreleased]:" l = false) lines →
  foldl (relink_line cfg last_tag) (out, false) lines = (out ++ lines, false).
Proof.
  revert out. induction lines as [|l lines IH]; intros out; simpl.
  - by rewrite app_nil_r.
  - intros [Hl Hls]%Forall_cons. rewrite <-is_unreleased_link_begins in Hl.
    rewrite Hl. simpl. rewrite IH; [|done]. by rewrite <-app_assoc.
Qed.


End ScanFacts.

(** ** The claims about the document merger *)

Section merger.
Import Re Py Changelog Spec ScanFacts.








End merger.


(** ** The section builder *)

Module SectionFacts.
Import Re Py Changelog Spec.

Lemma entry_lines_nil entries cat :
  entry_lines entries cat = [] ↔ ¬ Exists (λ e, category e = cat) entries.
Proof.
  unfold entry_lines. induction entries as [|e entries IH].
  - split; [|done]. intros _ H. by apply Exists_nil in H.
  - rewrite filter_cons, Exists_cons. destruct (decide (category e = cat)).
    + split; [done|]. intros []. by left.
    + rewrite IH. tauto.
Qed.

Lemma build_section_step entries (lines : list string) cat :
  match text <$> filter (λ e, category e = cat) entries with
  | [] => lines
  | _ => (lines ++ ["### " +:+ cat; EmptyString])
           ++ (text <$> filter (λ e, category e = cat) entries)
           ++ [EmptyString]
  end
  = lines ++ category_block entries cat.
Proof.
  unfold category_block. fold (entry_lines entries cat).
  case_bool_decide as H.
  - destruct (entry_lines entries cat) eqn:E.
    + apply entry_lines_nil in E. contradiction.
    + by rewrite <-!app_assoc.
  - apply entry_lines_nil in H. rewrite H. by rewrite app_nil_r.
Qed.

End SectionFacts.

Section section_builder.
Import Re Py Changelog Spec SectionFacts.

(** C7.  The section is the concatenation, in the fixed order Breaking
    Changes, Removed, Deprecated, Added, Changed, Fixed, Security, of the
    block of each category: a level-3 heading and the entry lines of the
    category in input order, and nothing for a category without entries;
    the section of no entries is the empty string. *)
Theorem C7_build_section (entries : list Entry) :
  build_section entries
  = join nl
      (category_block entries "Breaking Changes"
       ++ category_block entries "Removed"
       ++ category_block entries "Deprecated"
       ++ category_block entries "Added"
       ++ category_block entries "Changed"
       ++ category_block entries "Fixed"
       ++ category_block entries "Security")
  ∧ build_section [] = EmptyString.
Proof.
  split; [|reflexivity].
  unfold build_section, CATEGORY_ORDER. cbn [foldl].
  rewrite !build_section_step. by rewrite <-!app_assoc.
Qed.

End section_builder.


(** ** Strings and characters *)

Module StrFacts.
Import Re Py Spec.

Lemma append_nil_l (s : string) : EmptyString +:+ s = s.
Proof. reflexivity. Qed.

Lemma append_cons c (a b : string) : String c a +:+ b = String c (a +:+ b).
Proof. reflexivity. Qed.

Lemma chars_of_app (a b : string) : chars_of (a +:+ b) = chars_of a ++ chars_of b.
Proof. induction a as [|c a IH]; [done|]. cbn. by rewrite <-IH. Qed.


Lemma chars_of_inj (a b : string) : chars_of a = chars_of b → a = b.
Proof.
  intros H. rewrite <-(String.string_of_list_ascii_of_string a), H.
  apply String.string_of_list_ascii_of_string.
Qed.




Lemma Forall2_eqb (cs w : list ascii) :
  Forall2 (λ c x, Chars.eqb c x = true) cs w ↔ w = cs.
Proof.
  split.
  - induction 1 as [|c x cs w H%Ascii.eqb_eq _ IH]; [done|]. by subst.
  - intros ->. induction cs; constructor; [apply Ascii.eqb_refl|done].
Qed.



End StrFacts.


(** ** Classification *)

Module ClassifyFacts.
Import Re Py Changelog Spec ReFacts StrFacts.






Lemma map_category_table cc_type breaking :
  _map_category cc_type breaking
  = if breaking then "Breaking Changes" else type_category cc_type.
Proof.
  unfold _map_category, type_category, _TYPE_TO_CATEGORY.
  destruct breaking; [done|]. cbn [list_to_map foldr uncurry fst snd].
  repeat (rewrite lookup_insert; case_decide; [by subst|]).
  by repeat (case_decide; [congruence|]).
Qed.


End ClassifyFacts.


Section classification.
Import Re Py Changelog Spec ClassifyFacts.





End classification.


(** ** From a commit message to an entry *)

Module EntryFacts.
Import Re Py Changelog Spec ReFacts StrFacts ClassifyFacts.

Lemma entry_from_commit_eq run_process message cfg log :
  _entry_from_commit run_process message cfg log
  = if matches (re_search _SKIP_PATTERNS message) then (Ok None, log)
    else ( Ok (entry_of cfg (pr_number_of message)
                 (title_used run_process log message)),
           log ++ lookups message ).
Proof.
  unfold _entry_from_commit, title_used, lookups, entry_of.
  fold (pr_number_of message).
  destruct (matches (re_search _SKIP_PATTERNS message)); [done|].
  unfold mbind, IO_bind, bind, mret, IO_ret, ret.
  destruct (pr_number_of message) as [n|]; cbn [truthy_opt default].
  - destruct (truthy n) eqn:Hn.
    + unfold _fetch_pr_title, mbind, IO_bind, bind, mret, IO_ret, ret, _run_cmd.
      fold (lookup_cmd n). unfold looked_up.
      destruct (returncode (run_process log (lookup_cmd n)) =? 0)%Z;
        cbn [negb andb].
      * destruct (truthy (strip _)) eqn:Ht; cbn [truthy_opt default];
          rewrite ?Ht; cbn [default];
          by destruct (_parse_commit _) as [[? ?] ?], (_ && _).
      * cbn [truthy truthy_opt default].
        by destruct (_parse_commit _) as [[? ?] ?], (_ && _).
    + rewrite app_nil_r.
      by destruct (_parse_commit _) as [[? ?] ?], (_ && _).
  - rewrite app_nil_r.
    by destruct (_parse_commit _) as [[? ?] ?], (_ && _).
Qed.

Lemma den_seqs_cons r rs prev w nxt g g' :
  den (seqs (r :: rs)) prev w nxt g g'
  ↔ den (Seq r (seqs rs)) prev w nxt g g'.
Proof.
  destruct rs as [|r2 rs]; [|done]. cbn [seqs den]. split.
  - intros H. exists w, [], g'. by rewrite app_nil_r.
  - intros (w1 & w2 & g1 & -> & H & -> & ->). by rewrite app_nil_r in *.
Qed.

Lemma den_chars eq cs : ∀ prev w nxt g g',
  den (chars eq cs) prev w nxt g g'
  ↔ Forall2 (λ c x, eq c x = true) cs w ∧ g' = g.
Proof.
  unfold chars. induction cs as [|c cs IH]; intros prev w nxt g g'.
  - simpl. split; [by intros [-> ->]|]. by intros [->%Forall2_nil_inv_l ->].
  - rewrite fmap_cons, den_seqs_cons. cbn [den]. split.
    + intros (w1 & w2 & g1 & -> & (x & -> & Hx & ->) & H2).
      apply IH in H2 as [H2 ->]. split; [|done]. by constructor.
    + intros [Hw ->].
      apply Forall2_cons_inv_l in Hw as (x & w2 & Hx & Hw & ->).
      exists [x], w2, g. split; [done|]. split; [by exists x|].
      by apply IH.
Qed.


Lemma forallb_Forall {A} (p : A → bool) l :
  forallb p l = true ↔ Forall (λ x, p x = true) l.
Proof.
  induction l as [|x l IH]; simpl; [by split|].
  rewrite andb_true_iff, Forall_cons, IH. done.
Qed.


Lemma at_eol_cases t : at_eol t = true → t = [] ∨ t = [Chars.newline].
Proof.
  destruct t as [|c [|? ?]]; simpl; [by left| |done].
  intros ->%Ascii.eqb_eq. by right.
Qed.






End EntryFacts.

Section exclusion.
Import Re Py Changelog Spec EntryFacts.



End exclusion.

Section reference_resolver.
Import Re Py Changelog Spec StrFacts EntryFacts.




End reference_resolver.


(** ** The end-to-end scenario *)

Module PipelineFacts.
Import Re Py Changelog Spec EntryFacts.

Lemma title_used_raw run_process log message :
  (∀ log n, looked_up (run_process log (lookup_cmd n)) = None) →
  title_used run_process log message = message.
Proof.
  intros H. unfold title_used. destruct (pr_number_of message) as [n|]; [|done].
  destruct (truthy n); [|done]. by rewrite H.
Qed.

Lemma collect_lines_raw run_process cfg lines :
  (∀ log n, looked_up (run_process log (lookup_cmd n)) = None) →
  ∀ entries log,
    collect_lines run_process cfg lines entries log
    = ((collect_raw cfg lines entries).1,
       log ++ (collect_raw cfg lines entries).2).
Proof.
  intros H. induction lines as [|line lines IH]; intros entries log.
  - simpl. by rewrite app_nil_r.
  - cbn [collect_lines collect_raw].
    destruct (negb (truthy (strip line))); [apply IH|].
    destruct (split1 " " line) as [|sha [|message [|? ?]]];
      try (simpl; by rewrite app_nil_r).
    unfold mbind, IO_bind, bind.
    rewrite entry_from_commit_eq, title_used_raw by done.
    destruct (matches (re_search _SKIP_PATTERNS message)); [apply IH|].
    rewrite IH. cbn [fst snd]. by rewrite app_assoc.
Qed.

End PipelineFacts.

Section pipeline.
Import Re Py Changelog Spec PipelineFacts.

(** C8, as the code has it.  When [git log] prints the four commits of
    the scenario, no title lookup yields a title and no type is
    excluded, the walk yields three entries, in the order of the log: an
    Added entry for the [feat] commit, a Breaking Changes entry for the
    [fix!] commit and a Changed entry for the [chore] commit; the merge
    commit yields nothing, and no lookup is made for it. *)
Theorem C8_end_to_end (run_process : subprocess) (last_tag : option string)
    (cfg : Config) :
  (∀ log range,
     run_process log
       ["git"; "log"; "--first-parent"; "--pretty=format:%H %s"; range]
     = {| returncode := 0; stdout := Examples.git_log |}) →
  (∀ log n, looked_up (run_process log (lookup_cmd n)) = None) →
  exclude_types cfg = ∅ →
  let range :=
    match last_tag with
    | Some (String c tag') => String c tag' +:+ "..HEAD"
    | _ => "HEAD"
    end in
    collect_entries run_process last_tag cfg []
    = ( Ok [ {| category := "Added";
                text := "- Add retry logic ([#42](" +:+ repo_url cfg
                          +:+ "/pull/42))" |};
             {| category := "Breaking Changes";
                text := "- Correct off-by-one ([#43](" +:+ repo_url cfg
                          +:+ "/pull/43))" |};
             {| category := "Changed";
                text := "- Bump deps ([#45](" +:+ repo_url cfg
                          +:+ "/pull/45))" |} ],
        [ ["git"; "log"; "--first-parent"; "--pretty=format:%H %s"; range];
          lookup_cmd "42"; lookup_cmd "43"; lookup_cmd "45" ] ).
Proof.
  intros Hlog Hgh Hex range.
  assert ((if truthy_opt last_tag
           then default EmptyString last_tag +:+ "..HEAD" else "HEAD")
          = range) as Hrange by by destruct last_tag as [[|? ?]|].
  unfold collect_entries, mbind, IO_bind, bind, _run_cmd.
  rewrite Hrange. clear Hrange. generalize range. clear range. intros range.
  rewrite Hlog. cbn [returncode stdout Z.eqb negb].
  assert (truthy (strip Examples.git_log) = true) as -> by by vm_compute.
  cbn [negb]. rewrite collect_lines_raw by done.
  destruct cfg as [v url pfx path excl day]. simpl in Hex. subst excl.
  by vm_compute.
Qed.

Lemma C8_witness :
    collect_entries Examples.offline None Examples.cfg []
    = ( Ok [ {| category := "Added";
                text := "- Add retry logic ([#42](URL/pull/42))" |};
             {| category := "Breaking Changes";
                text := "- Correct off-by-one ([#43](URL/pull/43))" |};
             {| category := "Changed";
                text := "- Bump deps ([#45](URL/pull/45))" |} ],
        [ ["git"; "log"; "--first-parent"; "--pretty=format:%H %s"; "HEAD"];
          lookup_cmd "42"; lookup_cmd "43"; lookup_cmd "45" ] ).
Proof.
  apply (C8_end_to_end Examples.offline None Examples.cfg);
    [reflexivity|reflexivity|reflexivity].
Defined.

(** C8, as the claim states it, fails: the scenario yields three entries,
    not two, and one of them is an Added entry. *)
Lemma C8_counterexample :
  ∃ entries,
    (collect_entries Examples.offline None Examples.cfg []).1 = Ok entries
    ∧ length entries ≠ 2
    ∧ length (filter (λ e, category e = "Added") entries) ≠ 0.
Proof. eexists. split; [by vm_compute|]. by vm_compute. Qed.

End pipeline.


(** ** Release tags *)

Module TagFacts.
Import Re Py Changelog Spec ReFacts StrFacts EntryFacts.







(** [split], [int] and [lstrip] on runs of digits. *)


















(** The head of the sorted list is a greatest element. *)







(** The lines [splitlines] yields hold no line boundary. *)





End TagFacts.

Section release_tags.
Import Re Py Changelog Spec TagFacts.


End release_tags.

(** * Further properties of the program *)

(** ** Release tags: the answer as an equation, prefixes, ties *)

Module TagOrderFacts.
Import Re Py Changelog Spec ReFacts StrFacts TagFacts.





End TagOrderFacts.

Section release_tags_more.
Import Re Py Changelog Spec TagFacts TagOrderFacts.





End release_tags_more.

(** ** The anatomy of a conventional-commit title *)

Module GrammarFacts.
Import Re Py Changelog Spec ReFacts StrFacts ClassifyFacts EntryFacts.



End GrammarFacts.

Section grammar.
Import Re Py Changelog Spec StrFacts ClassifyFacts GrammarFacts.





End grammar.

(** ** Entries: categories, noise, the walk over the log *)

Module WalkFacts.
Import Re Py Changelog Spec ReFacts StrFacts ClassifyFacts EntryFacts
  SectionFacts.

Lemma map_category_known cc_type breaking :
  _map_category cc_type breaking ∈ CATEGORY_ORDER.
Proof.
  rewrite map_category_table. unfold type_category, CATEGORY_ORDER.
  destruct breaking; [set_solver|].
  repeat (case_decide; [set_solver|]). set_solver.
Qed.

Lemma entry_of_known cfg pr title e :
  entry_of cfg pr title = Some e →
  category e ∈ CATEGORY_ORDER ∧ ∃ rest, text e = "- " +:+ rest.
Proof.
  unfold entry_of. destruct (_parse_commit title) as [[ty br] d].
  destruct (_ && _); [done|]. intros [= <-]. cbn [category text].
  split; [apply map_category_known|]. destruct (truthy_opt pr); eauto.
Qed.



Lemma collect_lines_known run_process cfg lines : ∀ entries log result,
  Forall (λ e, category e ∈ CATEGORY_ORDER ∧ ∃ rest, text e = "- " +:+ rest)
    entries →
  (collect_lines run_process cfg lines entries log).1 = Ok result →
  Forall (λ e, category e ∈ CATEGORY_ORDER ∧ ∃ rest, text e = "- " +:+ rest)
    result.
Proof.
  induction lines as [|line lines IH]; intros entries log result He.
  - by intros [= <-].
  - cbn [collect_lines].
    destruct (negb (truthy (strip line))); [by apply IH|].
    destruct (split1 " " line) as [|sha [|message [|? ?]]]; try done.
    unfold mbind, IO_bind, bind. rewrite entry_from_commit_eq.
    destruct (matches (re_search _SKIP_PATTERNS message)); [by apply IH|].
    apply IH. destruct (entry_of _ _ _) as [e|] eqn:Ee; [|done].
    apply Forall_app. split; [done|]. constructor; [|done].
    by eapply entry_of_known.
Qed.


(** The noise patterns. *)

Lemma skip_anchored p rest :
  p ∈ ["Merge pull request"; "Merge branch"; "Merge remote";
       "Prepare release"] →
  matches (re_search _SKIP_PATTERNS (p +:+ rest)) = true.
Proof.
  intros Hp. unfold re_search. rewrite chars_of_app.
  assert (∃ g', den _SKIP_PATTERNS None (chars_of p) (chars_of rest) [] g')
    as [g' D].
  { exists []. unfold _SKIP_PATTERNS, lit.
    assert (∀ q, den (seqs [Bol; chars Chars.eqb (chars_of q)]) None
                   (chars_of q) (chars_of rest) [] []) as Hq.
    { intros q. cbn [seqs den]. exists [], (chars_of q), [].
      split; [done|]. split; [done|]. apply den_chars.
      by rewrite Forall2_eqb. }
    cbn [den]. repeat (apply elem_of_cons in Hp as [->|Hp]; [eauto 10|]).
    by apply elem_of_nil in Hp. }
  destruct (search_from_complete _SKIP_PATTERNS [] None _ _ _ D) as [m Hm].
  cbn [app] in Hm. by rewrite Hm.
Qed.

Lemma skip_merge_to pre m mid target post :
  m ∈ ["M"; "m"] →
  forallb dot (chars_of mid) = true →
  target ∈ ["main"; "master"; "workstation"] →
  matches (re_search _SKIP_PATTERNS
             (pre +:+ m +:+ "erge" +:+ mid +:+ "to " +:+ target +:+ post))
  = true.
Proof.
  intros Hm Hmid Ht. unfold re_search. rewrite !chars_of_app.
  assert (∃ g',
            den _SKIP_PATTERNS (last_or None (chars_of pre))
              (chars_of m ++ chars_of "erge" ++ chars_of mid
               ++ chars_of "to " ++ chars_of target)
              (chars_of post) [] g') as [g' D].
  { exists [("1", chars_of target)]. unfold _SKIP_PATTERNS, lit.
    cbn [den]. do 5 right. left. cbn [seqs den].
    eexists (chars_of m), _, []. split; [done|]. split.
    { apply elem_of_cons in Hm as [->|Hm]; [by eexists|].
      apply elem_of_cons in Hm as [->|Hm]; [by eexists|].
      by apply elem_of_nil in Hm. }
    eexists (chars_of "erge"), _, []. split; [done|].
    split; [apply den_chars; by rewrite Forall2_eqb|].
    eexists (chars_of mid), _, []. split; [done|]. split; [done|].
    eexists (chars_of "to "), _, []. split; [done|].
    split; [apply den_chars; by rewrite Forall2_eqb|].
    exists []. split; [|done].
    assert (∀ q, den (chars Chars.eqb (chars_of q))
                   (last_or
                      (last_or
                         (last_or (last_or (last_or None (chars_of pre))
                                     (chars_of m)) (chars_of "erge"))
                         (chars_of mid)) (chars_of "to "))
                   (chars_of q) (chars_of post) [] []) as Hq.
    { intros q. apply den_chars. by rewrite Forall2_eqb. }
    repeat (apply elem_of_cons in Ht as [->|Ht]; [eauto 10|]).
    by apply elem_of_nil in Ht. }
  destruct (search_from_complete _SKIP_PATTERNS _ None _ _ _ D) as [x Hx].
  rewrite <-!app_assoc in Hx. by rewrite Hx.
Qed.

Lemma build_section_blocks entries :
  build_section entries
  = join nl
      (category_block entries "Breaking Changes"
       ++ category_block entries "Removed"
       ++ category_block entries "Deprecated"
       ++ category_block entries "Added"
       ++ category_block entries "Changed"
       ++ category_block entries "Fixed"
       ++ category_block entries "Security").
Proof.
  unfold build_section, CATEGORY_ORDER. cbn [foldl].
  rewrite !build_section_step. by rewrite <-!app_assoc.
Qed.

Lemma category_block_cases entries cat :
  (category_block entries cat = []
   ∧ ¬ Exists (λ e, category e = cat) entries)
  ∨ (∃ t, category_block entries cat = ("### " +:+ cat) :: t)
    ∧ Exists (λ e, category e = cat) entries.
Proof.
  unfold category_block. case_bool_decide; [right|left]; [|done].
  split; [|done]. eexists. reflexivity.
Qed.

Lemma join_heading sep cat t : join sep (("### " +:+ cat) :: t) ≠ EmptyString.
Proof. by destruct t. Qed.

Lemma log_range_cases last_tag :
  [ "git"; "log"; "--first-parent"; "--pretty=format:%H %s";
    if truthy_opt last_tag
    then default EmptyString last_tag +:+ "..HEAD" else "HEAD" ]
  = log_cmd last_tag.
Proof. by destruct last_tag as [[|? ?]|]. Qed.

Lemma collect_entries_known run_process last_tag cfg log entries :
  (collect_entries run_process last_tag cfg log).1 = Ok entries →
  Forall (λ e, category e ∈ CATEGORY_ORDER ∧ ∃ rest, text e = "- " +:+ rest)
    entries.
Proof.
  unfold collect_entries, mbind, IO_bind, bind, _run_cmd.
  destruct (negb (truthy _)); [by intros [= <-]|].
  by apply collect_lines_known.
Qed.

Lemma collect_entries_silent run_process last_tag cfg log :
  returncode (run_process log (log_cmd last_tag)) ≠ 0%Z
  ∨ strip (stdout (run_process log (log_cmd last_tag))) = EmptyString →
  collect_entries run_process last_tag cfg log
  = (Ok [], log ++ [log_cmd last_tag]).
Proof.
  intros H. unfold collect_entries, mbind, IO_bind, bind, _run_cmd.
  rewrite log_range_cases.
  destruct H as [H|H].
  - apply Z.eqb_neq in H. by rewrite H.
  - rewrite H. by destruct (_ =? _)%Z.
Qed.


End WalkFacts.

Section walk.
Import Re Py Changelog Spec StrFacts EntryFacts WalkFacts.

(** X5.  Every entry [collect_entries] yields has a category of
    [CATEGORY_ORDER] and a text that begins a markdown list item, so
    that the section builder leaves none of them out. *)
Theorem X5_entries_are_renderable (run_process : subprocess)
    (last_tag : option string) (cfg : Config) (log : list argv)
    (entries : list Entry) :
  (collect_entries run_process last_tag cfg log).1 = Ok entries →
  Forall (λ e, category e ∈ CATEGORY_ORDER ∧ ∃ rest, text e = "- " +:+ rest)
    entries.
Proof. apply collect_entries_known. Qed.

Lemma X5_witness :
  ∃ entries,
    (collect_entries Examples.offline None Examples.cfg []).1 = Ok entries
    ∧ Forall (λ e, category e ∈ CATEGORY_ORDER
                   ∧ ∃ rest, text e = "- " +:+ rest) entries.
Proof.
  eexists. split; [by vm_compute|].
  apply (X5_entries_are_renderable Examples.offline None Examples.cfg []).
  by vm_compute.
Defined.

(** X6.  The section is the empty string exactly when no entry has a
    category of [CATEGORY_ORDER]; entries of any other category are left
    out without a trace. *)
Theorem X6_empty_section (entries : list Entry) :
  build_section entries = EmptyString
  ↔ Forall (λ e, category e ∉ CATEGORY_ORDER) entries.
Proof.
  rewrite build_section_blocks. split.
  - intros Hj.
    assert (∀ cat, cat ∈ CATEGORY_ORDER →
              ¬ Exists (λ e, category e = cat) entries) as Hno.
    { intros cat Hc.
      repeat
        match type of Hj with
        | context [category_block entries ?c ++ _] =>
            destruct (category_block_cases entries c) as [[Hb ?]|[[t Hb] ?]];
            rewrite Hb in Hj; clear Hb; cbn [app] in Hj;
            [|by apply join_heading in Hj]
        | context [category_block entries ?c] =>
            destruct (category_block_cases entries c) as [[Hb ?]|[[t Hb] ?]];
            rewrite Hb in Hj; clear Hb; cbn [app] in Hj;
            [|by apply join_heading in Hj]
        end.
      unfold CATEGORY_ORDER in Hc.
      repeat (apply elem_of_cons in Hc as [->|Hc]; [done|]).
      by apply elem_of_nil in Hc. }
    apply Forall_forall. intros e He Hc.
    apply (Hno _ Hc). apply Exists_exists. eauto.
  - intros Hall.
    assert (∀ cat, cat ∈ CATEGORY_ORDER → category_block entries cat = [])
      as Hno.
    { intros cat Hc.
      destruct (category_block_cases entries cat) as [[Hb _]|[_ Hex]];
        [done|].
      apply Exists_exists in Hex as (e & He & <-).
      rewrite Forall_forall in Hall. by apply Hall in He. }
    rewrite !Hno by (unfold CATEGORY_ORDER; set_solver). done.
Qed.

(** X7.  A message that begins with [Merge pull request], [Merge branch],
    [Merge remote] or [Prepare release] yields no entry, and no lookup
    is made for it, whatever follows. *)
Theorem X7_noise_is_dropped (run_process : subprocess) (cfg : Config)
    (log : list argv) (p rest : string) :
  p ∈ ["Merge pull request"; "Merge branch"; "Merge remote";
       "Prepare release"] →
  _entry_from_commit run_process (p +:+ rest) cfg log = (Ok None, log).
Proof.
  intros Hp. rewrite entry_from_commit_eq. by rewrite skip_anchored.
Qed.

Lemma X7_witness :
  _entry_from_commit Examples.offline
    ("Merge branch" +:+ " 'dev' into main (#12)") Examples.cfg []
  = (Ok None, []).
Proof.
  apply (X7_noise_is_dropped Examples.offline Examples.cfg [] "Merge branch").
  set_solver.
Defined.

(** X8.  The merge patterns are not anchored: any message that holds
    [Merge] or [merge], later on the same line [to main], [to master] or
    [to workstation], is dropped, a conventional commit included. *)
Theorem X8_merge_to_anywhere (run_process : subprocess) (cfg : Config)
    (log : list argv) (pre m mid target post : string) :
  m ∈ ["M"; "m"] →
  forallb dot (chars_of mid) = true →
  target ∈ ["main"; "master"; "workstation"] →
  _entry_from_commit run_process
    (pre +:+ m +:+ "erge" +:+ mid +:+ "to " +:+ target +:+ post) cfg log
  = (Ok None, log).
Proof.
  intros Hm Hmid Ht. rewrite entry_from_commit_eq.
  by rewrite skip_merge_to.
Qed.

Lemma X8_witness :
  _entry_from_commit Examples.offline
    "feat: merge dev to main in one step (#9)" Examples.cfg []
  = (Ok None, []).
Proof.
  apply (X8_merge_to_anywhere Examples.offline Examples.cfg []
           "feat: " "m" " dev " "main" " in one step (#9)");
    [set_solver|reflexivity|set_solver].
Defined.

(** X9.  When [git log] fails or prints nothing but white space, the
    walk yields no entry, raises nothing and runs no other command. *)
Theorem X9_empty_history (run_process : subprocess)
    (last_tag : option string) (cfg : Config) (log : list argv) :
  returncode (run_process log (log_cmd last_tag)) ≠ 0%Z
  ∨ strip (stdout (run_process log (log_cmd last_tag))) = EmptyString →
  collect_entries run_process last_tag cfg log
  = (Ok [], log ++ [log_cmd last_tag]).
Proof. apply collect_entries_silent. Qed.

Lemma X9_witness :
  collect_entries (λ _ _, {| returncode := 128; stdout := EmptyString |})
    None Examples.cfg []
  = (Ok [], [log_cmd None]).
Proof.
  apply (X9_empty_history (λ _ _, {| returncode := 128;
                                      stdout := EmptyString |})
           None Examples.cfg []).
  left. discriminate.
Defined.


End walk.

(** ** The changelog file as a whole *)

Module FileFacts.
Import Re Py Changelog Spec ReFacts StrFacts ScanFacts TagFacts.

Lemma append_nil_r (s : string) : s +:+ EmptyString = s.
Proof. induction s as [|c s IH]; [done|]. by rewrite append_cons, IH. Qed.

Lemma append_assoc (a b c : string) : (a +:+ b) +:+ c = a +:+ (b +:+ c).
Proof.
  induction a as [|x a IH]; [done|]. by rewrite !append_cons, IH.
Qed.



Lemma join_empty_cons x rest :
  join EmptyString (x :: rest) = x +:+ join EmptyString rest.
Proof.
  destruct rest as [|y rest]; cbn [join]; [by rewrite append_nil_r|].
  by rewrite append_nil_l.
Qed.



Lemma update_comparison_links_without lines cfg last_tag :
  Forall (λ l, begins_with_ci "[unreleased]:" l = false) lines →
  _update_comparison_links lines cfg last_tag = lines.
Proof.
  intros H. unfold _update_comparison_links. by rewrite relink_before.
Qed.

Lemma sublist_of_insertion lines ns :
  sublist lines (_insert_version_section lines ns).
Proof.
  destruct (first_split is_unreleased_heading lines)
    as [Hnone|(pre & u & rest & -> & Hpre & Hu)].
  - by rewrite insert_without_unreleased.
  - destruct (first_split is_version_heading rest)
      as [Hnone|(mid & h & post & -> & Hmid & Hh)].
    + rewrite insert_without_next_heading by done.
      apply sublist_app; [done|]. apply sublist_skip.
      rewrite <-(app_nil_r rest) at 1. apply sublist_app; [done|].
      apply sublist_nil_l.
    + rewrite insert_with_next_heading by done.
      apply sublist_app; [done|]. apply sublist_skip.
      apply sublist_app; [done|]. cbn [app].
      do 3 apply sublist_cons. done.
Qed.

End FileFacts.

Section changelog_file.
Import Re Py Changelog Spec StrFacts ScanFacts FileFacts.

(** X11.  The insertion pass never deletes or reorders a line: the input
    lines are a subsequence of its output, whatever the document and the
    section. *)
Theorem X11_insertion_keeps_every_line (lines : list string)
    (new_section : string) :
  sublist lines (_insert_version_section lines new_section)
  ∧ length lines ≤ length (_insert_version_section lines new_section)
                 ≤ length lines + 4.
Proof.
  split; [apply sublist_of_insertion|].
  destruct (first_split is_unreleased_heading lines)
    as [Hnone|(pre & u & rest & -> & Hpre & Hu)].
  - rewrite insert_without_unreleased by done. lia.
  - destruct (first_split is_version_heading rest)
      as [Hnone|(mid & h & post & -> & Hmid & Hh)].
    + rewrite insert_without_next_heading by done.
      rewrite !length_app. simpl. rewrite !length_app. simpl. lia.
    + rewrite insert_with_next_heading by done.
      rewrite !length_app. simpl. rewrite !length_app. simpl. lia.
Qed.



(** X13.  When the changelog file does not exist, the file written is
    the skeleton, a blank line, and the new version section with its
    heading, whatever the configuration, the section and the last tag;
    no comparison link is written. *)
Theorem X13_update_creates_the_file (cfg : Config) (section_body : string)
    (last_tag : option string) :
  update_changelog cfg section_body last_tag None
  = _CHANGELOG_HEADER +:+ nl +:+ nl
      +:+ "## [" +:+ version cfg +:+ "] - " +:+ today cfg +:+ nl +:+ nl
      +:+ section_body +:+ nl.
Proof.
  unfold update_changelog, _ensure_changelog_exists.
  set (ns := "## [" +:+ version cfg +:+ "] - " +:+ today cfg +:+ nl +:+ nl
               +:+ section_body).
  assert (splitlines_keepends (_CHANGELOG_HEADER +:+ nl)
          = [ "<!-- markdownlint-disable MD024 -->" +:+ nl; nl;
              "# Changelog" +:+ nl; nl;
              "All notable changes to this project will be documented in this file."
                +:+ nl; nl;
              "The format is based on [Keep a Changelog](https://keepachangelog.com/en/1.1.0/),"
                +:+ nl;
              "and this project adheres to [Semantic Versioning](https://semver.org/spec/v2.0.0.html)."
                +:+ nl; nl ]
            ++ ("## [Unreleased]" +:+ nl) :: [nl]) as -> by by vm_compute.
  rewrite insert_without_next_heading;
    [|by vm_compute; repeat constructor|by vm_compute
     |by vm_compute; repeat constructor].
  rewrite update_comparison_links_without.
  - cbn [app].
    rewrite !join_empty_cons. cbn [join].
    unfold _CHANGELOG_HEADER, ns. rewrite !append_assoc, ?append_nil_r.
    reflexivity.
  - assert (begins_with_ci "[unreleased]:" (ns +:+ nl) = false) as Hns.
    { unfold ns. rewrite !append_assoc. by rewrite append_cons. }
    cbn [app].
    repeat (constructor; [first [exact Hns|by vm_compute]|]). constructor.
Qed.

End changelog_file.

(** ** A whole run *)

Module MainFacts.
Import Re Py Changelog Spec ReFacts StrFacts EntryFacts SectionFacts
  TagOrderFacts WalkFacts FileFacts.



Lemma join_cons_ne sep x l :
  l ≠ [] → join sep (x :: l) = x +:+ sep +:+ join sep l.
Proof. by destruct l. Qed.

Lemma join_app_cons sep l1 x l2 :
  l1 ≠ [] → l2 ≠ [] →
  join sep (l1 ++ x :: l2)
  = join sep l1 +:+ sep +:+ x +:+ sep +:+ join sep l2.
Proof.
  intros H1 H2. induction l1 as [|a [|b l1] IH]; [done| |].
  - cbn [app]. rewrite join_cons_ne by done. by rewrite join_cons_ne.
  - change ((a :: b :: l1) ++ x :: l2) with (a :: ((b :: l1) ++ x :: l2)).
    rewrite join_cons_ne by done. rewrite IH by done.
    rewrite (join_cons_ne sep a (b :: l1)) by done.
    by rewrite !append_assoc.
Qed.

Lemma join_after sep l1 x l2 :
  l2 ≠ [] →
  ∃ before, join sep (l1 ++ x :: l2) = before +:+ x +:+ sep +:+ join sep l2.
Proof.
  intros H2. induction l1 as [|a l1 [before IH]].
  - exists EmptyString. cbn [app]. by rewrite join_cons_ne.
  - exists (a +:+ sep +:+ before).
    change ((a :: l1) ++ x :: l2) with (a :: (l1 ++ x :: l2)).
    rewrite join_cons_ne by by destruct l1. rewrite IH.
    by rewrite !append_assoc.
Qed.

Lemma blocks_concat entries :
  category_block entries "Breaking Changes"
    ++ category_block entries "Removed"
    ++ category_block entries "Deprecated"
    ++ category_block entries "Added"
    ++ category_block entries "Changed"
    ++ category_block entries "Fixed"
    ++ category_block entries "Security"
  = concat (category_block entries <$> CATEGORY_ORDER).
Proof. unfold CATEGORY_ORDER. cbn [fmap list_fmap concat]. by rewrite app_nil_r. Qed.

Lemma entry_in_section entries e :
  e ∈ entries → category e ∈ CATEGORY_ORDER →
  ∃ before between after,
    build_section entries
    = before +:+ ("### " +:+ category e) +:+ nl +:+ between +:+ nl
        +:+ text e +:+ nl +:+ after.
Proof.
  intros He Hc. rewrite build_section_blocks, blocks_concat.
  apply list_elem_of_split in Hc as (c1 & c2 & ->).
  rewrite fmap_app, fmap_cons, concat_app, concat_cons.
  unfold category_block at 2. rewrite bool_decide_true
    by (apply Exists_exists; eauto).
  assert (text e ∈ entry_lines entries (category e)) as Ht.
  { unfold entry_lines. apply list_elem_of_fmap. exists e. split; [done|].
    by apply list_elem_of_filter. }
  apply list_elem_of_split in Ht as (t1 & t2 & ->).
  set (P := concat (category_block entries <$> c1)).
  set (Q := concat (category_block entries <$> c2)).
  replace (P ++ (["### " +:+ category e; EmptyString]
                   ++ (t1 ++ text e :: t2) ++ [EmptyString]) ++ Q)
    with (P ++ ("### " +:+ category e)
            :: ((EmptyString :: t1) ++ text e :: (t2 ++ [EmptyString] ++ Q)))
    by (cbn [app]; by rewrite <-!app_assoc).
  destruct (join_after nl P ("### " +:+ category e)
              ((EmptyString :: t1) ++ text e :: (t2 ++ [EmptyString] ++ Q)))
    as [before ->]; [done|].
  rewrite join_app_cons; [|done|by destruct t2].
  exists before, (join nl (EmptyString :: t1)),
    (join nl (t2 ++ [EmptyString] ++ Q)).
  by rewrite !append_assoc.
Qed.

End MainFacts.

Section entry_point.
Import Re Py Changelog Spec StrFacts EntryFacts WalkFacts FileFacts MainFacts.

(** X14.  Every entry the walk yields is rendered: its text stands in
    the section on lines of its own, after the heading of its
    category.  In particular the section of a walk that yields an entry
    is not empty. *)
Theorem X14_every_entry_is_rendered (run_process : subprocess)
    (last_tag : option string) (cfg : Config) (log : list argv)
    (entries : list Entry) (e : Entry) :
  (collect_entries run_process last_tag cfg log).1 = Ok entries →
  e ∈ entries →
  ∃ before between after,
    build_section entries
    = before +:+ ("### " +:+ category e) +:+ nl +:+ between +:+ nl
        +:+ text e +:+ nl +:+ after.
Proof.
  intros Hc He. apply entry_in_section; [done|].
  apply collect_entries_known in Hc. rewrite Forall_forall in Hc.
  by apply Hc.
Qed.

Lemma X14_witness :
  ∃ before between after,
    build_section
      [ {| category := "Added";
           text := "- Add retry logic ([#42](URL/pull/42))" |};
        {| category := "Breaking Changes";
           text := "- Correct off-by-one ([#43](URL/pull/43))" |};
        {| category := "Changed";
           text := "- Bump deps ([#45](URL/pull/45))" |} ]
    = before +:+ "### Changed" +:+ nl +:+ between +:+ nl
        +:+ "- Bump deps ([#45](URL/pull/45))" +:+ nl +:+ after.
Proof.
  apply (X14_every_entry_is_rendered Examples.offline None Examples.cfg []
           _ {| category := "Changed";
                text := "- Bump deps ([#45](URL/pull/45))" |}).
  - by vm_compute.
  - set_solver.
Defined.






End entry_point.

(** ** The reference marker at the end of a description *)

Module MarkerFacts.
Import Re Py Changelog Spec ReFacts StrFacts EntryFacts.





End MarkerFacts.

Section trailing_reference.
Import Re Py Changelog Spec StrFacts MarkerFacts.



End trailing_reference.

(** ** The configuration of a run *)

Module ConfigFacts.
Import Re Py Changelog Spec ReFacts StrFacts EntryFacts.

Lemma lower_char_idem c : Chars.lower (Chars.lower c) = Chars.lower c.
Proof. by destruct c as [[] [] [] [] [] [] [] []]. Qed.

Lemma lower_idem s : lower (lower s) = lower s.
Proof.
  induction s as [|c s IH]; [done|]. cbn [lower].
  by rewrite lower_char_idem, IH.
Qed.

Lemma parse_commit_type_lower title :
  lower (_parse_commit title).1.1 = (_parse_commit title).1.1.
Proof.
  unfold _parse_commit.
  destruct (re_match _CC_REGEX title) as [m|]; cbn [fst]; [|done].
  apply lower_idem.
Qed.

Lemma entry_of_without cfg cfg' pr title t :
  lower t ≠ t →
  repo_url cfg' = repo_url cfg →
  exclude_types cfg' = exclude_types cfg ∖ {[t]} →
  entry_of cfg' pr title = entry_of cfg pr title.
Proof.
  intros Ht Hu He. unfold entry_of.
  pose proof (parse_commit_type_lower title) as Hl.
  destruct (_parse_commit title) as [[ty br] d]. cbn [fst] in Hl.
  rewrite Hu, He.
  assert (bool_decide (ty ∈ exclude_types cfg ∖ {[t]})
          = bool_decide (ty ∈ exclude_types cfg)) as ->; [|done].
  apply bool_decide_ext. rewrite elem_of_difference, elem_of_singleton.
  split; [tauto|]. intros Hin. split; [done|]. intros ->. by apply Ht.
Qed.

Lemma rstrip_with_last p s c :
  last (chars_of (rstrip_with p s)) = Some c → p c = false.
Proof.
  induction s as [|a s IH]; [done|]. cbn [rstrip_with].
  destruct (rstrip_with p s) as [|b r].
  - destruct (p a) eqn:Ea; [done|]. by intros [= <-].
  - exact IH.
Qed.

Lemma rstrip_with_prefix p s :
  ∃ k, chars_of s = chars_of (rstrip_with p s) ++ k
       ∧ Forall (λ c, p c = true) k.
Proof.
  induction s as [|a s (k & Hk & Hp)]; [by exists []|].
  cbn [rstrip_with chars_of]. rewrite Hk.
  destruct (rstrip_with p s) as [|b r].
  - destruct (p a) eqn:Ea.
    + exists (a :: k). split; [done|]. by constructor.
    + by exists k.
  - by exists k.
Qed.

Lemma rstrip_with_id p s :
  (∀ c, last (chars_of s) = Some c → p c = false) → rstrip_with p s = s.
Proof.
  induction s as [|a s IH]; [done|]. intros H. cbn [rstrip_with].
  destruct s as [|b s].
  - cbn. by rewrite (H a eq_refl).
  - rewrite IH; [done|]. intros c Hc. by apply H.
Qed.

Lemma rstrip_with_head p a s c r :
  rstrip_with p (String a s) = String c r → c = a.
Proof.
  cbn [rstrip_with]. destruct (rstrip_with p s).
  - destruct (p a); [done|]. by intros [= <- _].
  - by intros [= <- _].
Qed.

Lemma lstrip_with_first p s c r :
  lstrip_with p s = String c r → p c = false.
Proof.
  induction s as [|a s IH]; [done|]. cbn [lstrip_with].
  destruct (p a) eqn:Ea; [done|]. by intros [= <- _].
Qed.

Lemma strip_idem s : strip (strip s) = strip s.
Proof.
  unfold strip.
  assert (lstrip_with Chars.is_space
            (rstrip_with Chars.is_space (lstrip_with Chars.is_space s))
          = rstrip_with Chars.is_space (lstrip_with Chars.is_space s)) as ->.
  { destruct (lstrip_with Chars.is_space s) as [|a u] eqn:Eu; [done|].
    destruct (rstrip_with Chars.is_space (String a u)) as [|c r] eqn:Ev;
      [done|].
    apply rstrip_with_head in Ev as ->.
    apply lstrip_with_first in Eu. cbn [lstrip_with]. by rewrite Eu. }
  apply rstrip_with_id. intros c. apply rstrip_with_last.
Qed.

Lemma any_of_slash c : any_of "/" c = true → c = "/"%char.
Proof.
  unfold any_of. cbn. rewrite orb_false_r. by intros ->%Ascii.eqb_eq.
Qed.

End ConfigFacts.

Section configuration.
Import Re Py Changelog Spec StrFacts EntryFacts ConfigFacts.

(** X19.  Commit types are compared in lower case, the excluded types as
    they are given: an excluded type that holds an upper-case letter
    excludes nothing, and taking it out of the exclude set changes the
    entry of no message. *)
Theorem X19_capital_excludes_nothing (run_process : subprocess)
    (message : string) (cfg cfg' : Config) (log : list argv) (t : string) :
  lower t ≠ t →
  repo_url cfg' = repo_url cfg →
  exclude_types cfg' = exclude_types cfg ∖ {[t]} →
  _entry_from_commit run_process message cfg log
  = _entry_from_commit run_process message cfg' log.
Proof.
  intros Ht Hu He. rewrite !entry_from_commit_eq.
  by rewrite (entry_of_without cfg cfg' _ _ t).
Qed.

Lemma X19_witness :
  _entry_from_commit Examples.offline "Chore: bump deps" Examples.cfg_capital
    []
  = _entry_from_commit Examples.offline "Chore: bump deps" Examples.cfg [].
Proof.
  apply (X19_capital_excludes_nothing Examples.offline "Chore: bump deps"
           Examples.cfg_capital Examples.cfg [] "Chore").
  - discriminate.
  - reflexivity.
  - by vm_compute.
Defined.

(** X20.  In the configuration a run builds, the base URL is the URL
    given, or the GitHub URL of the repository when none is given,
    without the slashes at its end, so that it never ends with a slash;
    and every excluded type is a non-empty string without white space
    around it. *)
Theorem X20_configuration_is_trimmed (today : string) (w : World) :
  let given :=
    if truthy_opt (environ w !! "INPUT_REPO_URL")
    then default EmptyString (environ w !! "INPUT_REPO_URL")
    else "https://github.com/"
           +:+ default EmptyString (environ w !! "GITHUB_REPOSITORY") in
  let cfg := main_config today w in
  (∃ slashes,
     given = repo_url cfg +:+ slashes
     ∧ Forall (λ c, c = "/"%char) (chars_of slashes))
  ∧ (∀ c, last (chars_of (repo_url cfg)) = Some c → c ≠ "/"%char)
  ∧ ∀ t, t ∈ exclude_types cfg → t ≠ EmptyString ∧ strip t = t.
Proof.
  intros given cfg. split; [|split].
  - unfold cfg, main_config. cbn [repo_url]. fold given. unfold rstrip.
    destruct (rstrip_with_prefix (any_of "/") given) as (k & Hk & Hp).
    exists (string_of k). split.
    + apply chars_of_inj.
      by rewrite chars_of_app, String.list_ascii_of_string_of_list_ascii.
    + rewrite String.list_ascii_of_string_of_list_ascii.
      eapply Forall_impl; [exact Hp|]. apply any_of_slash.
  - intros c Hc ->. unfold cfg, main_config, rstrip in Hc. cbn [repo_url] in Hc.
    by apply rstrip_with_last in Hc.
  - intros t. unfold cfg, main_config. cbn [exclude_types].
    unfold main_exclude_types.
    rewrite elem_of_list_to_set, list_elem_of_fmap.
    intros (x & -> & [Hx _]%list_elem_of_filter).
    split; [by destruct (strip x)|]. apply strip_idem.
Qed.

End configuration.

(** ** The linter of action versions *)

Module LinterFacts.
Import Re Py Changelog Spec Linter ReFacts StrFacts EntryFacts.

Lemma startswith_spec p : ∀ s,
  startswith p s = true ↔ ∃ rest, s = p +:+ rest.
Proof.
  induction p as [|a p IH]; intros s.
  - split; [|done]. intros _. by exists s.
  - destruct s as [|b s]; cbn [startswith].
    + split; [done|]. by intros [rest H].
    + rewrite andb_true_iff, IH. unfold Chars.eqb. rewrite Ascii.eqb_eq.
      split.
      * intros [-> [rest ->]]. exists rest. by rewrite append_cons.
      * intros [rest H]. rewrite append_cons in H. injection H as -> ->.
        split; [done|]. by exists rest.
Qed.

Lemma rsplit1_no_sep sep s : sep ∉ chars_of s → rsplit1 sep s = [s].
Proof.
  induction s as [|c s IH]; [done|]. cbn [chars_of rsplit1]. intros Hs.
  rewrite IH by set_solver.
  destruct (Chars.eqb c sep) eqn:E; [|done].
  apply Ascii.eqb_eq in E as ->. set_solver.
Qed.

Lemma rsplit1_sep sep s :
  sep ∈ chars_of s →
  ∃ a v, rsplit1 sep s = [a; v]
         ∧ chars_of s = chars_of a ++ sep :: chars_of v
         ∧ sep ∉ chars_of v.
Proof.
  induction s as [|c s IH]; cbn [chars_of rsplit1].
  - intros H. by apply elem_of_nil in H.
  - intros Hs. destruct (decide (sep ∈ chars_of s)) as [Hin|Hout].
    + destruct (IH Hin) as (a & v & -> & -> & Hv).
      by exists (String c a), v.
    + rewrite rsplit1_no_sep by done.
      apply elem_of_cons in Hs as [->|Hs]; [|done].
      unfold Chars.eqb. rewrite Ascii.eqb_refl.
      by exists EmptyString, s.
Qed.

Lemma last_sep_unique {A} (sep : A) a : ∀ a' v v',
  a ++ sep :: v = a' ++ sep :: v' → sep ∉ v → sep ∉ v' → v = v'.
Proof.
  induction a as [|x a IH]; intros [|y a'] v v'; cbn [app].
  - by intros [= ->].
  - intros [= <- ->] Hv. set_solver.
  - intros [= -> <-] _ Hv. set_solver.
  - intros [= _ H]. by apply (IH a').
Qed.

Lemma den_times (p : ascii → bool) n : ∀ prev w nxt g g',
  den (times n (Chr p)) prev w nxt g g'
  ↔ length w = n ∧ forallb p w = true ∧ g' = g.
Proof.
  unfold times. induction n as [|n IH]; intros prev w nxt g g'.
  - cbn [replicate seqs den]. split.
    + by intros [-> ->].
    + intros (Hw & _ & ->). by apply length_zero_iff_nil in Hw as ->.
  - cbn [replicate]. rewrite den_seqs_cons. cbn [den]. split.
    + intros (w1 & w2 & g1 & -> & (c & -> & Hc & ->) & H2).
      apply IH in H2 as (<- & Hw & ->). cbn. by rewrite Hc, Hw.
    + intros (Hw & Hp & ->). destruct w as [|c w]; [done|].
      cbn in Hw, Hp. apply andb_true_iff in Hp as [Hc Hp].
      exists [c], w, g. split; [done|]. split; [by exists c|].
      apply IH. split; [lia|done].
Qed.

Lemma sha_den prev w nxt g g' :
  den sha_pattern prev w nxt g g'
  ↔ prev = None ∧ length w = 40 ∧ forallb is_hex_lower w = true
    ∧ at_eol nxt = true ∧ g' = g.
Proof.
  unfold sha_pattern. cbn [seqs den]. split.
  - intros (w1 & w2 & g1 & -> & (-> & -> & ->)
            & w3 & w4 & g2 & -> & (Hl & Hp & ->)%den_times
            & -> & He & ->).
    by rewrite app_nil_r.
  - intros (-> & Hl & Hp & He & ->).
    exists [], w, g. split; [done|]. split; [done|].
    exists w, [], g. split; [by rewrite app_nil_r|].
    split; [by apply den_times|done].
Qed.

Lemma sha_match v :
  is_Some (re_match sha_pattern v)
  ↔ ∃ sha tail, v = sha +:+ tail ∧ is_sha sha
                ∧ (tail = EmptyString ∨ tail = nl).
Proof.
  unfold re_match, is_sha. split.
  - intros [m E].
    apply match_at_sound in E as (w & Hw & D).
    apply sha_den in D as (_ & Hl & Hp & He & _).
    exists (string_of w), (string_of (m_rest m)).
    rewrite String.list_ascii_of_string_of_list_ascii.
    split; [|split; [split; [|done]|]].
    + apply chars_of_inj.
      by rewrite chars_of_app, !String.list_ascii_of_string_of_list_ascii.
    + rewrite <-Hl. rewrite <-(String.list_ascii_of_string_of_list_ascii w)
        at 2. clear. induction (string_of w) as [|c s IH]; [done|].
      cbn. by rewrite IH.
    + by destruct (at_eol_cases _ He) as [->| ->]; [left|right].
  - intros (sha & tail & -> & [Hl Hp] & Ht). rewrite chars_of_app.
    apply (match_at_complete sha_pattern None (chars_of sha)
             (chars_of tail) []).
    apply sha_den. split; [done|]. split.
    { rewrite <-Hl. clear. induction sha as [|c s IH]; [done|].
      cbn. by rewrite IH. }
    split; [done|]. split; [|done]. by destruct Ht as [->| ->].
Qed.

Lemma hex_not_at w :
  forallb is_hex_lower w = true → "@"%char ∉ w.
Proof.
  intros H%forallb_Forall Hin. rewrite Forall_forall in H.
  by apply H in Hin.
Qed.

End LinterFacts.

Section linter.
Import Re Py Spec Linter StrFacts LinterFacts.

(** X21.  [validate_action_version] raises nothing, and accepts a
    reference exactly when it begins with a dot, begins with
    [ROKT/rokt-workflows/], or ends with [@] and forty lower-case
    hexadecimal digits, a final newline after them being let through. *)
Theorem X21_validate_action_version (uses : string) :
  (∃ b, validate_action_version uses = Ok b)
  ∧ (validate_action_version uses = Ok true ↔ exempt uses ∨ pinned uses).
Proof.
  unfold validate_action_version, exempt.
  destruct (startswith "." uses) eqn:E1.
  { split; [by eauto|]. split; [|done]. intros _. left. left.
    by apply startswith_spec. }
  destruct (startswith "ROKT/rokt-workflows/" uses) eqn:E2.
  { split; [by eauto|]. split; [|done]. intros _. left. right.
    by apply startswith_spec. }
  assert (¬ ((∃ rest, uses = "." +:+ rest)
             ∨ (∃ rest, uses = "ROKT/rokt-workflows/" +:+ rest))) as Hex.
  { intros [H|H]; apply startswith_spec in H; congruence. }
  case_bool_decide as Hat; cbn [negb].
  - destruct (rsplit1_sep _ _ Hat) as (a & v & -> & Hs & Hv).
    split; [by eauto|]. split.
    + intros [= (sha & tail & -> & Hsha & Ht)%bool_decide_eq_true%sha_match].
      right.
      exists a, sha, tail. split; [|done]. apply chars_of_inj.
      by rewrite Hs, !chars_of_app.
    + intros [H|(action & sha & tail & -> & Hsha & Ht)]; [done|].
      f_equal. apply bool_decide_eq_true, sha_match.
      exists sha, tail. split; [|done].
      apply chars_of_inj. rewrite !chars_of_app in Hs.
      change (chars_of "@" ++ chars_of sha ++ chars_of tail)
        with ("@"%char :: (chars_of sha ++ chars_of tail)) in Hs.
      rewrite chars_of_app. symmetry.
      apply (last_sep_unique _ _ _ _ _ Hs); [|done].
      intros [Hin|Hin]%elem_of_app.
      * destruct Hsha as [_ Hp]. by apply hex_not_at in Hp.
      * destruct Ht as [->| ->]; [by apply elem_of_nil in Hin|].
        vm_compute in Hin.
        apply elem_of_cons in Hin as [Hin|Hin]; [discriminate Hin|].
        by apply elem_of_nil in Hin.
  - split; [by eauto|]. split; [done|].
    intros [H|(action & sha & tail & -> & _)]; [done|].
    exfalso. apply Hat. rewrite !chars_of_app. set_solver.
Qed.

End linter.
